(** * ServiceLine lead generation: acquisition and engagement pipeline

    A shallow embedding of the pipeline code of the repository:
    - [scrapers/home-service-scraper.js]: [deduplicateLeads],
      [estimateCompanySize], [enrichLeads], [scrapeAllSources] and the
      object [saveLeads] builds;
    - [utils/rate-limiter.js]: the [RateLimiter] class;
    - [scoring/lead-scorer.js]: the [LeadScorer] class;
    - [workers/processors/scraping-processor.js]: [process];
    - [workers/processors/scoring-processor.js]: [process],
      [scoreSingleLead], [scoreBatchLeads], [triggerHotLeadCampaign],
      [scheduleFollowUpSequence];
    - [workers/processors/email-processor.js]: [process],
      [recordMessage];
    - [workers/processors/followup-processor.js]: [process];
    - [webhooks/email-webhooks.js]: the SendGrid and Mailgun handlers;
    - [automation/cron-scheduler.js]: [runDailyScraping],
      [runScoringJob], [runFollowUpCheck].

    Conventions.  JavaScript strings are modelled as [string] (sequences
    of bytes); case mapping acts on the ASCII letters only.  JavaScript
    numbers are IEEE 754 binary64 values, modelled by [spec_float] with
    precision 53 and maximal exponent 1024.  The database is the record
    [Db] of tables; a query is a pure function of the tables and is taken
    to succeed (the handlers test [data], they never see a transport
    error).  Asynchronous code is run to completion in program order. *)

From Stdlib Require Import ZArith Ascii String Floats.SpecFloat.
From stdpp Require Import gmap strings list sorting pretty.

Open Scope Z_scope.

(* ===================================================================== *)
(** * JavaScript strings *)
(* ===================================================================== *)

Module JsString.

Definition is_upper (c : ascii) : bool :=
  let n := nat_of_ascii c in (Nat.leb 65 n && Nat.leb n 90)%bool.

Definition is_lower (c : ascii) : bool :=
  let n := nat_of_ascii c in (Nat.leb 97 n && Nat.leb n 122)%bool.

Definition is_digit (c : ascii) : bool :=
  let n := nat_of_ascii c in (Nat.leb 48 n && Nat.leb n 57)%bool.

Definition lower_char (c : ascii) : ascii :=
  if is_upper c then ascii_of_nat (nat_of_ascii c + 32) else c.

Definition upper_char (c : ascii) : ascii :=
  if is_lower c then ascii_of_nat (nat_of_ascii c - 32) else c.

Fixpoint map_chars (f : ascii -> ascii) (s : string) : string :=
  match s with
  | EmptyString => EmptyString
  | String c r => String (f c) (map_chars f r)
  end.

(** [String.prototype.toLowerCase] and [toUpperCase]. *)
Definition toLowerCase (s : string) : string := map_chars lower_char s.
Definition toUpperCase (s : string) : string := map_chars upper_char s.

Fixpoint filter_chars (keep : ascii -> bool) (s : string) : string :=
  match s with
  | EmptyString => EmptyString
  | String c r =>
      if keep c then String c (filter_chars keep r) else filter_chars keep r
  end.

Fixpoint is_prefix (p s : string) : bool :=
  match p, s with
  | EmptyString, _ => true
  | String a p', String b s' => if Ascii.eqb a b then is_prefix p' s' else false
  | String _ _, EmptyString => false
  end.

(** [String.prototype.includes]: [sub] occurs somewhere in [s]. *)
Fixpoint includes (s sub : string) : bool :=
  if is_prefix sub s then true
  else match s with
       | EmptyString => false
       | String _ r => includes r sub
       end.

End JsString.

(* ===================================================================== *)
(** * scrapers/home-service-scraper.js: deduplication *)
(* ===================================================================== *)

Module HomeServiceScraper.

(** A candidate as the three source scrapers push it: [name] and
    [address] are always strings (each scraper trims them), the other
    fields may be missing. *)
Record LeadCandidate := {
  name : string;
  address : string;
  phone : option string;
  website : option string;
  rating : option spec_float;
  reviewCount : option Z;
  source : string
}.

(** The template literal [`${lead.name.toLowerCase()}-${lead.address.toLowerCase()}`]. *)
Definition dedupKey (lead : LeadCandidate) : string :=
  JsString.toLowerCase (name lead) +:+ "-" +:+ JsString.toLowerCase (address lead).

(** [leads.filter(lead => ...)] with the closure's [seen] set threaded
    through the traversal. *)
Fixpoint filterSeen (seen : gset string) (leads : list LeadCandidate)
  : list LeadCandidate :=
  match leads with
  | [] => []
  | lead :: rest =>
      let key := dedupKey lead in
      if decide (key ∈ seen) then filterSeen seen rest
      else lead :: filterSeen ({[key]} ∪ seen) rest
  end.

Definition deduplicateLeads (leads : list LeadCandidate) : list LeadCandidate :=
  filterSeen ∅ leads.

(** The normalisation the specification describes, for comparison with
    [dedupKey]: lower-case, and drop the ASCII punctuation and white
    space (every ASCII character that is neither a letter nor a digit). *)
Definition spec_normalize (s : string) : string :=
  JsString.filter_chars
    (fun c => (JsString.is_lower c || JsString.is_digit c
               || Nat.leb 128 (nat_of_ascii c))%bool)
    (JsString.toLowerCase s).

Definition spec_identity_key (lead : LeadCandidate) : string * string :=
  (spec_normalize (name lead), spec_normalize (address lead)).

(** Two sightings of one business whose names and addresses differ in
    spacing and punctuation only. *)
Definition variant_leads : list LeadCandidate :=
  [ {| name := "ABC Plumbing"; address := "1 Main St."; phone := None;
       website := None; rating := None; reviewCount := None;
       source := "Google Maps" |};
    {| name := "ABC  Plumbing"; address := "1 Main St"; phone := None;
       website := None; rating := None; reviewCount := None;
       source := "Yelp" |} ].

End HomeServiceScraper.

(* ===================================================================== *)
(** * JavaScript values *)
(* ===================================================================== *)

Module Js.

(** binary64 arithmetic. *)
Definition ofZ (z : Z) : spec_float := binary_normalize 53 1024 z 0 false.
Definition fadd : spec_float -> spec_float -> spec_float := SFadd 53 1024.
Definition fmul : spec_float -> spec_float -> spec_float := SFmul 53 1024.
Definition fdiv : spec_float -> spec_float -> spec_float := SFdiv 53 1024.
Definition flt : spec_float -> spec_float -> bool := SFltb.

#[local] Set Warnings "-register-all".

(** The values a lead object, a database row or a job payload is made of.
    An object is its list of own properties; reading a property takes the
    first binding of the key. *)
Inductive Val :=
| Undefined
| Null
| Bool (b : bool)
| Num (x : spec_float)
| Str (s : string)
| Arr (elems : list Val)
| Obj (props : list (string * Val)).

(** What the language runtime does and this file does not spell out:
    the numeric value of a string ([StringToNumber]) and of an array or
    object ([ToPrimitive] followed by [ToNumber]). *)
Class Runtime := {
  StringToNumber : string -> spec_float;
  ObjectToNumber : Val -> spec_float
}.

(** [ToBoolean]. *)
Definition truthy (v : Val) : bool :=
  match v with
  | Undefined | Null => false
  | Bool b => b
  | Num (S754_zero _) | Num S754_nan => false
  | Num _ => true
  | Str s => negb (String.eqb s "")
  | Arr _ | Obj _ => true
  end.

(** [a || b]. *)
Definition or (a b : Val) : Val := if truthy a then a else b.

Definition ToNumber `{Runtime} (v : Val) : spec_float :=
  match v with
  | Undefined => S754_nan
  | Null => S754_zero false
  | Bool b => if b then ofZ 1 else S754_zero false
  | Num x => x
  | Str s => StringToNumber s
  | Arr _ | Obj _ => ObjectToNumber v
  end.

(** [v < n] and [v > n] against a numeric literal [n]. *)
Definition lt `{Runtime} (v : Val) (n : Z) : bool := flt (ToNumber v) (ofZ n).
Definition gt `{Runtime} (v : Val) (n : Z) : bool := flt (ofZ n) (ToNumber v).

(** [v === 'literal'] and [v === 0]. *)
Definition is_str (v : Val) (lit : string) : bool :=
  match v with Str s => String.eqb s lit | _ => false end.

Definition is_zero (v : Val) : bool :=
  match v with Num (S754_zero _) => true | _ => false end.

Fixpoint assoc (k : string) (props : list (string * Val)) : Val :=
  match props with
  | [] => Undefined
  | (k', v) :: rest => if String.eqb k k' then v else assoc k rest
  end.

(** [v.k] or [v[k]] for the property names this code reads.  [None] is
    the TypeError raised on [undefined] and [null]. *)
Definition get (v : Val) (k : string) : option Val :=
  match v with
  | Undefined | Null => None
  | Bool _ | Num _ => Some Undefined
  | Str s =>
      Some (if String.eqb k "length" then Num (ofZ (Z.of_nat (String.length s)))
            else Undefined)
  | Arr l =>
      Some (if String.eqb k "length" then Num (ofZ (Z.of_nat (length l)))
            else Undefined)
  | Obj props => Some (assoc k props)
  end.

(** [v.toLowerCase()]: a TypeError unless [v] is a string. *)
Definition toLowerCase (v : Val) : option string :=
  match v with Str s => Some (JsString.toLowerCase s) | _ => None end.

(** [v?.toUpperCase()]. *)
Definition opt_toUpperCase (v : Val) : option Val :=
  match v with
  | Undefined | Null => Some Undefined
  | Str s => Some (Str (JsString.toUpperCase s))
  | _ => None
  end.


(** [Math.round] of a finite number: the integer nearest to it, a tie
    going up.  (Only finite arguments occur, see the scorer.) *)
Definition Math_round (x : spec_float) : Z :=
  match x with
  | S754_finite s m e =>
      let sm := if s then Z.neg m else Z.pos m in
      if 0 <=? e then sm * 2 ^ e
      else (2 * sm + 2 ^ (- e)) / 2 ^ (1 - e)
  | _ => 0
  end.

End Js.

(* ===================================================================== *)
(** * scoring/lead-scorer.js: class LeadScorer *)
(* ===================================================================== *)

Module LeadScorer.
Import Js.

Section WithRuntime.
Context `{Runtime}.

(** [this.weights], in the insertion order of the object literal. *)
Record Weights := {
  w_websiteQuality : Z;
  w_seoRanking : Z;
  w_adPresence : Z;
  w_reviewScore : Z;
  w_socialPresence : Z;
  w_companySize : Z;
  w_marketCompetitiveness : Z
}.

Definition weights : Weights := {|
  w_websiteQuality := 25;
  w_seoRanking := 20;
  w_adPresence := 15;
  w_reviewScore := 15;
  w_socialPresence := 10;
  w_companySize := 10;
  w_marketCompetitiveness := 5
|}.

Definition weights_list (w : Weights) : list Z :=
  [w_websiteQuality w; w_seoRanking w; w_adPresence w; w_reviewScore w;
   w_socialPresence w; w_companySize w; w_marketCompetitiveness w].

(** [this.industryKeywords]. *)
Definition industryKeywords : list (string * list string) :=
  [("HVAC", ["hvac repair"; "air conditioning"; "heating service"; "ac repair"]);
   ("PLUMBING", ["plumber"; "plumbing service"; "emergency plumber"; "drain cleaning"]);
   ("ROOFING", ["roofing contractor"; "roof repair"; "roof replacement"]);
   ("ELECTRICAL", ["electrician"; "electrical service"; "electrical repair"])].

(** The object [scores] of [calculateScore]. *)
Record ComponentScores := {
  websiteQuality : Z;
  seoRanking : Z;
  adPresence : Z;
  reviewScore : Z;
  socialPresence : Z;
  companySize : Z;
  marketCompetitiveness : Z
}.

Definition scores_list (s : ComponentScores) : list Z :=
  [websiteQuality s; seoRanking s; adPresence s; reviewScore s;
   socialPresence s; companySize s; marketCompetitiveness s].

(** [a || b || {}] over two properties of the lead. *)
Definition block (lead : Val) (snake camel : string) (dflt : Val) : option Val :=
  a ← get lead snake;
  b ← get lead camel;
  Some (or (or a b) dflt).

(** [if (check) score += points], the body of the [forEach] over
    [qualityIndicators]. *)
Definition add_if (check : bool) (points score : Z) : Z :=
  if check then score + points else score.

Definition scoreWebsiteQuality (lead : Val) : option Z :=
  websiteQuality ← block lead "website_quality" "websiteQuality" (Obj []);
  hasWebsite ← get websiteQuality "hasWebsite";
  website ← get lead "website";
  if negb (truthy hasWebsite) && negb (truthy website) then Some 100
  else
    hasMobileViewport ← get websiteQuality "hasMobileViewport";
    hasSSL ← get websiteQuality "hasSSL";
    loadTime ← get websiteQuality "loadTime";
    hasMetaDescription ← get websiteQuality "hasMetaDescription";
    titleLength ← get websiteQuality "titleLength";
    hasGoogleAnalytics ← get websiteQuality "hasGoogleAnalytics";
    hasLiveChat ← get websiteQuality "hasLiveChat";
    hasFacebookPixel ← get websiteQuality "hasFacebookPixel";
    let score := 0 in
    let score := add_if (negb (truthy hasMobileViewport)) 20 score in
    let score := add_if (negb (truthy hasSSL)) 15 score in
    let score := add_if (gt loadTime 3000) 15 score in
    let score := add_if (negb (truthy hasMetaDescription)) 10 score in
    let score := add_if (lt titleLength 30) 10 score in
    let score := add_if (negb (truthy hasGoogleAnalytics)) 10 score in
    let score := add_if (negb (truthy hasLiveChat)) 10 score in
    let score := add_if (negb (truthy hasFacebookPixel)) 10 score in
    Some (Z.min score 100).

(** [this.industryKeywords[industry] || []], then [.length]. *)
Definition keywords_length (industry : Val) : nat :=
  match industry with
  | Str s =>
      match list_find (fun kv => fst kv = s) industryKeywords with
      | Some (_, (_, kws)) => length kws
      | None => 0%nat
      end
  | _ => 0%nat
  end.

Definition analyzeIndustryKeywords (lead seoData : Val) : option Z :=
  industry0 ← get lead "industry";
  industry ← opt_toUpperCase industry0;
  if Nat.ltb 0 (keywords_length industry) then
    kws ← get seoData "industryKeywords";
    if negb (truthy kws) then Some 30
    else
      len ← get kws "length";
      if is_zero len then Some 30 else Some 15
  else Some 15.

Definition scoreSEORanking (lead : Val) : option Z :=
  seoData ← block lead "seo_data" "seoData" (Obj []);
  indexed ← get seoData "indexed";
  if negb (truthy indexed) then Some 100
  else
    estimatedRanking ← get seoData "estimatedRanking";
    organicKeywords0 ← get seoData "organicKeywords";
    let ranking := or estimatedRanking (Num (ofZ 50)) in
    let organicKeywords := or organicKeywords0 (Num (ofZ 0)) in
    let score := 0 in
    let score :=
      if gt ranking 50 then score + 40
      else if gt ranking 20 then score + 25
      else score + 10 in
    let score :=
      if lt organicKeywords 50 then score + 30
      else if lt organicKeywords 200 then score + 20
      else score + 10 in
    industryKeywordScore ← analyzeIndustryKeywords lead seoData;
    let score := score + industryKeywordScore in
    Some (Z.min score 100).

Definition scoreAdPresence (lead : Val) : option Z :=
  adPresence ← block lead "ad_presence" "adPresence" (Obj []);
  hasGoogleAds ← get adPresence "hasGoogleAds";
  estimatedAdSpend ← get adPresence "estimatedAdSpend";
  hasFacebookAds ← get adPresence "hasFacebookAds";
  hasYelpAds ← get adPresence "hasYelpAds";
  let score :=
    if negb (truthy hasGoogleAds) || is_str estimatedAdSpend "None" then 80
    else if is_str estimatedAdSpend "Low" || is_str estimatedAdSpend "Active" then 40
    else 20 in
  let score := add_if (negb (truthy hasFacebookAds)) 10 score in
  let score := add_if (negb (truthy hasYelpAds)) 10 score in
  Some (Z.min score 100).

(** The literal [4.5]. *)
Definition four_and_a_half : spec_float := fdiv (ofZ 9) (ofZ 2).

Definition scoreReviews (lead : Val) : option Z :=
  rating0 ← get lead "rating";
  review_count ← get lead "review_count";
  reviewCount0 ← get lead "reviewCount";
  let rating := or rating0 (Num (ofZ 0)) in
  let reviewCount := or (or review_count reviewCount0) (Num (ofZ 0)) in
  let score := 0 in
  let score :=
    if lt reviewCount 10 then score + 40
    else if lt reviewCount 50 then score + 25
    else if lt reviewCount 100 then score + 15
    else score + 5 in
  let score :=
    if lt rating 3 then score + 40
    else if lt rating 4 then score + 30
    else if flt (ToNumber rating) four_and_a_half then score + 20
    else score + 10 in
  review_response_rate ← get lead "review_response_rate";
  let responseRate := or review_response_rate (Num (ofZ 0)) in
  let score :=
    if lt responseRate 30 then score + 20
    else if lt responseRate 60 then score + 10
    else score in
  Some (Z.min score 100).

Definition platforms : list string :=
  ["facebook"; "instagram"; "linkedin"; "twitter"; "youtube"].

(** One round of the [forEach] over [platforms]; the state is
    [(score, missingPlatforms)] ([lowEngagementPlatforms] is never read). *)
Definition platform_step (socialPresence : Val) (st : Z * Z) (platform : string)
  : option (Z * Z) :=
  let '(score, missingPlatforms) := st in
  platformData ← get socialPresence platform;
  if negb (truthy platformData) then Some (score + 15, missingPlatforms + 1)
  else
    hasProfile ← get platformData "hasProfile";
    if negb (truthy hasProfile) then Some (score + 15, missingPlatforms + 1)
    else
      engagement ← get platformData "engagement";
      followersCount ← get platformData "followersCount";
      if is_str engagement "low" || lt followersCount 100
      then Some (score + 10, missingPlatforms)
      else Some (score + 5, missingPlatforms).

Fixpoint forEach_platform (socialPresence : Val) (st : Z * Z) (ps : list string)
  : option (Z * Z) :=
  match ps with
  | [] => Some st
  | p :: rest =>
      st' ← platform_step socialPresence st p;
      forEach_platform socialPresence st' rest
  end.

Definition scoreSocialPresence (lead : Val) : option Z :=
  socialPresence ← block lead "social_presence" "socialPresence" (Obj []);
  st ← forEach_platform socialPresence (0, 0) platforms;
  let '(score, missingPlatforms) := st in
  let score :=
    if missingPlatforms =? Z.of_nat (length platforms) then 100 else score in
  Some (Z.min score 100).

Definition scoreCompanySize (lead : Val) : option Z :=
  size ← block lead "estimated_size" "estimatedSize" (Str "Unknown");
  lower ← toLowerCase size;
  let score :=
    if String.eqb lower "large" then 90
    else if String.eqb lower "medium" then 75
    else if String.eqb lower "small" then 50
    else if String.eqb lower "startup" then 30
    else 40 in
  employee_count ← get lead "employee_count";
  let employees := or employee_count (Num (ofZ 0)) in
  let score := if gt employees 50 then Z.min (score + 10) 100 else score in
  let score := if gt employees 100 then Z.min (score + 10) 100 else score in
  Some score.

Definition majorCities : list string :=
  ["new york"; "los angeles"; "chicago"; "houston"; "phoenix";
   "philadelphia"; "san antonio"; "san diego"; "dallas"; "miami"].

(** [majorCities.some(city => location.toLowerCase().includes(city))]:
    the callback runs on the first city at least, so a location that is
    not a string raises. *)
Definition isMetroArea (location : Val) : option bool :=
  lower ← toLowerCase location;
  Some (existsb (fun city => JsString.includes lower city) majorCities).

Definition scoreMarketCompetitiveness (lead : Val) : option Z :=
  address ← get lead "address";
  location0 ← get lead "location";
  let location := or (or address location0) (Str "") in
  metro ← isMetroArea location;
  let score := if (metro : bool) then 80 else 60 in
  local_competitor_count ← get lead "local_competitor_count";
  let competitorCount := or local_competitor_count (Num (ofZ 0)) in
  let score :=
    if gt competitorCount 50 then Z.min (score + 15) 100
    else if gt competitorCount 20 then Z.min (score + 10) 100
    else score in
  Some score.

Definition determineLeadTier (score : Z) : string :=
  if 80 <=? score then "Hot Lead"
  else if 60 <=? score then "Warm Lead"
  else if 40 <=? score then "Cold Lead"
  else "Low Priority".

(** One step of the [reduce] in [calculateScore]:
    [total + (scores[key] / 100) * this.weights[key]]. *)
Definition add_weighted (total : spec_float) (sw : Z * Z) : spec_float :=
  fadd total (fmul (fdiv (ofZ (fst sw)) (ofZ 100)) (ofZ (snd sw))).

Definition weightedTotal (scores : ComponentScores) : spec_float :=
  fold_left add_weighted (zip (scores_list scores) (weights_list weights)) (ofZ 0).

Inductive Priority := High | Medium | Low.

Definition priorityOrder (p : Priority) : Z :=
  match p with High => 1 | Medium => 2 | Low => 3 end.

Record Recommendation := {
  priority : Priority;
  category : string;
  recommendation : string;
  services : list string
}.

(** [Array.prototype.sort(compare)]: the stable sort by [compare], where
    [compare a b > 0] asks for [b] before [a]. *)
Fixpoint sort_insert {A} (compare : A -> A -> Z) (x : A) (l : list A) : list A :=
  match l with
  | [] => [x]
  | y :: rest =>
      if 0 <? compare x y then y :: sort_insert compare x rest
      else x :: y :: rest
  end.

Fixpoint Array_sort {A} (compare : A -> A -> Z) (l : list A) : list A :=
  match l with
  | [] => []
  | x :: rest => sort_insert compare x (Array_sort compare rest)
  end.

Definition push_if {A} (check : bool) (x : A) (l : list A) : list A :=
  if check then l ++ [x] else l.

Definition generateRecommendations (scores : ComponentScores) : list Recommendation :=
  let recommendations := [] in
  let recommendations :=
    push_if (70 <=? websiteQuality scores)
      {| priority := High; category := "Website";
         recommendation := "Website redesign and optimization needed";
         services := ["Website Development"; "Mobile Optimization"; "Speed Optimization"] |}
      recommendations in
  let recommendations :=
    push_if (60 <=? seoRanking scores)
      {| priority := High; category := "SEO";
         recommendation := "SEO optimization required to improve rankings";
         services := ["Local SEO"; "On-Page SEO"; "Content Marketing"; "Link Building"] |}
      recommendations in
  let recommendations :=
    push_if (60 <=? adPresence scores)
      {| priority := High; category := "Paid Advertising";
         recommendation := "PPC campaigns needed to increase visibility";
         services := ["Google Ads"; "Local Service Ads"; "Facebook Ads"] |}
      recommendations in
  let recommendations :=
    push_if (60 <=? reviewScore scores)
      {| priority := Medium; category := "Reputation Management";
         recommendation := "Review generation and management needed";
         services := ["Review Management"; "Reputation Monitoring"; "Review Response"] |}
      recommendations in
  let recommendations :=
    push_if (60 <=? socialPresence scores)
      {| priority := Medium; category := "Social Media";
         recommendation := "Social media presence needs development";
         services := ["Social Media Marketing"; "Content Creation"; "Community Management"] |}
      recommendations in
  Array_sort (fun a b => priorityOrder (priority a) - priorityOrder (priority b))
    recommendations.

(** The object [calculateScore] returns. *)
Record ScoreData := {
  totalScore : Z;
  tier : string;
  componentScores : ComponentScores;
  recommendations : list Recommendation;
  calculatedAt : Z
}.

(** The seven component calls, in the order of the [scores] literal. *)
Definition computeScores (lead : Val) : option ComponentScores :=
  s1 ← scoreWebsiteQuality lead;
  s2 ← scoreSEORanking lead;
  s3 ← scoreAdPresence lead;
  s4 ← scoreReviews lead;
  s5 ← scoreSocialPresence lead;
  s6 ← scoreCompanySize lead;
  s7 ← scoreMarketCompetitiveness lead;
  Some {| websiteQuality := s1; seoRanking := s2; adPresence := s3;
          reviewScore := s4; socialPresence := s5; companySize := s6;
          marketCompetitiveness := s7 |}.

(** [calculateScore(lead)]; [None] is a thrown TypeError, [now] the
    reading of the clock.  The first log line reads [lead.company_name]. *)
Definition calculateScore (now : Z) (lead : Val) : option ScoreData :=
  _ ← get lead "company_name";
  scores ← computeScores lead;
  let finalScore := Math_round (weightedTotal scores) in
  Some {| totalScore := finalScore;
          tier := determineLeadTier finalScore;
          componentScores := scores;
          recommendations := generateRecommendations scores;
          calculatedAt := now |}.

(** An element of [scoredLeads]: the spread [...lead] and the properties
    written after it.  A property left [None] is not written by the
    literal (the error branch writes [score] and [tier] only). *)
Record ScoredLead := {
  sl_lead : Val;
  sl_score : Z;
  sl_tier : string;
  sl_component_scores : option ComponentScores;
  sl_recommendations : option (list Recommendation);
  sl_scored_at : option Z
}.

(** One round of the [for] loop of [scoreLeads]: the [try] block, and the
    [catch] block, whose log line reads [lead.company_name] again and so
    raises out of the loop on [undefined] and [null]. *)
Definition scoreOne (now : Z) (lead : Val) : option ScoredLead :=
  match calculateScore now lead with
  | Some scoreData =>
      Some {| sl_lead := lead;
              sl_score := totalScore scoreData;
              sl_tier := tier scoreData;
              sl_component_scores := Some (componentScores scoreData);
              sl_recommendations := Some (recommendations scoreData);
              sl_scored_at := Some (calculatedAt scoreData) |}
  | None =>
      _ ← get lead "company_name";
      Some {| sl_lead := lead; sl_score := 0; sl_tier := "Error";
              sl_component_scores := None; sl_recommendations := None;
              sl_scored_at := None |}
  end.

Fixpoint scoreLoop (now : Z) (leads : list Val) : option (list ScoredLead) :=
  match leads with
  | [] => Some []
  | lead :: rest =>
      scored ← scoreOne now lead;
      scoredRest ← scoreLoop now rest;
      Some (scored :: scoredRest)
  end.

(** [scoreLeads(leads)]; [None] is a rejected promise. *)
Definition scoreLeads (now : Z) (leads : list Val) : option (list ScoredLead) :=
  scoredLeads ← scoreLoop now leads;
  Some (Array_sort (fun a b => sl_score b - sl_score a) scoredLeads).

End WithRuntime.

(** ** The weighted totals a [reduce] can reach

    Every component score is a multiple of five between 0 and 100
    ([grid]).  [totals_k] lists, in increasing order, the binary64 values
    the accumulator of the [reduce] can hold after [k] components; each
    list is computed from the one before it by [step_totals]. *)

Definition grid : list Z :=
  [0; 5; 10; 15; 20; 25; 30; 35; 40; 45; 50; 55; 60; 65; 70; 75; 80; 85; 90; 95; 100].

Definition on_grid (s : Z) : bool :=
  (0 <=? s) && (s <=? 100) && (s mod 5 =? 0).

(** [(score / 100) * weight] for each score of the grid. *)
Definition terms (w : Z) : list spec_float :=
  map (fun s => fmul (fdiv (ofZ s) (ofZ 100)) (ofZ w)) grid.

Definition sf_eqb (x y : spec_float) : bool :=
  match x, y with
  | S754_zero a, S754_zero b => Bool.eqb a b
  | S754_infinity a, S754_infinity b => Bool.eqb a b
  | S754_nan, S754_nan => true
  | S754_finite s m e, S754_finite s' m' e' =>
      Bool.eqb s s' && Pos.eqb m m' && Z.eqb e e'
  | _, _ => false
  end.

Definition sf_insert (x : spec_float) (acc : list spec_float) : list spec_float :=
  if existsb (sf_eqb x) acc then acc else x :: acc.

Definition sf_le (x y : spec_float) : Prop := SFleb x y = true.

#[local] Instance sf_le_dec : RelDecision sf_le.
Proof. intros x y. unfold sf_le. apply _. Defined.

Definition step_totals (w : Z) (prev : list spec_float) : list spec_float :=
  merge_sort sf_le
    (foldr sf_insert [] (flat_map (fun t => map (fadd t) (terms w)) prev)).

Definition totals_0 : list spec_float := [ofZ 0].
Definition totals_1 : list spec_float := Eval vm_compute in step_totals 25 totals_0.
Definition totals_2 : list spec_float := Eval vm_compute in step_totals 20 totals_1.
Definition totals_3 : list spec_float := Eval vm_compute in step_totals 15 totals_2.
Definition totals_4 : list spec_float := Eval vm_compute in step_totals 15 totals_3.
Definition totals_5 : list spec_float := Eval vm_compute in step_totals 10 totals_4.
Definition totals_6 : list spec_float := Eval vm_compute in step_totals 10 totals_5.
Definition totals_7 : list spec_float := Eval vm_compute in step_totals 5 totals_6.

(** Every element of [xs] occurs in [ys], both walked once from left to
    right. *)
Fixpoint covered (ys : list spec_float) : list spec_float -> bool :=
  match ys with
  | [] => fun xs => match xs with [] => true | _ :: _ => false end
  | y :: ys' =>
      fix walk (xs : list spec_float) : bool :=
        match xs with
        | [] => true
        | x :: xs' => if sf_eqb x y then walk xs' else covered ys' xs
        end
  end.

(** From every total of [prev], every term of weight [w] leads into
    [next]. *)
Definition stage_ok (w : Z) (prev next : list spec_float) : bool :=
  forallb (fun term => covered next (map (fun t => fadd t term) prev)) (terms w).



(** A lead is a value with properties: not [undefined], not [null]. *)
Definition is_lead (lead : Val) : Prop := lead <> Undefined /\ lead <> Null.

(** The value of a text column of [leads]: a string, or nothing. *)
Definition text_or_null (v : Val) : Prop :=
  match v with
  | Undefined | Null | Str _ => True
  | _ => False
  end.

(** A Lead Record as the schema types it: the columns on which the
    scorer calls a string method hold text. *)
Definition is_lead_record (lead : Val) : Prop :=
  is_lead lead /\
  forall k v,
    k ∈ ["industry"; "estimated_size"; "estimatedSize"; "address"; "location"] ->
    get lead k = Some v -> text_or_null v.

(** A runtime for the examples below, whose leads hold no string, array
    or object where a number is read: both conversions answer [NaN]. *)
Definition example_runtime : Runtime :=
  {| StringToNumber := fun _ => S754_nan; ObjectToNumber := fun _ => S754_nan |}.

(** Three leads for the batch scorer; the second carries a number where
    the size is read, so that [size.toLowerCase()] raises. *)
Definition example_batch : list Val :=
  [ Obj [("company_name", Str "ABC Plumbing"); ("industry", Str "plumbing");
         ("website", Str "https://abc.example");
         ("website_quality", Obj [("hasWebsite", Bool true); ("hasSSL", Bool true)]);
         ("estimated_size", Str "Small")];
    Obj [("company_name", Str "Odd Roofing"); ("estimated_size", Num (ofZ 5))];
    Obj [("company_name", Str "Quiet Electric"); ("industry", Str "electrical")] ].

(** ** The least total

    The least score each component function can return, and the totals
    the [reduce] can reach from component scores that are at least these:
    [floor_k] is computed from [floor_(k-1)] as [totals_k] is, with the
    scores of the grid below the component's least left out. *)

Definition least_scores : ComponentScores :=
  {| websiteQuality := 0; seoRanking := 35; adPresence := 20; reviewScore := 15;
     socialPresence := 25; companySize := 30; marketCompetitiveness := 60 |}.

Definition terms_from (lo w : Z) : list spec_float :=
  map (fun s => fmul (fdiv (ofZ s) (ofZ 100)) (ofZ w)) (filter (fun s => lo <= s) grid).

Definition step_floor (lo w : Z) (prev : list spec_float) : list spec_float :=
  merge_sort sf_le
    (foldr sf_insert [] (flat_map (fun t => map (fadd t) (terms_from lo w)) prev)).

Definition floor_1 : list spec_float := Eval vm_compute in step_floor 0 25 totals_0.
Definition floor_2 : list spec_float := Eval vm_compute in step_floor 35 20 floor_1.
Definition floor_3 : list spec_float := Eval vm_compute in step_floor 20 15 floor_2.
Definition floor_4 : list spec_float := Eval vm_compute in step_floor 15 15 floor_3.
Definition floor_5 : list spec_float := Eval vm_compute in step_floor 25 10 floor_4.
Definition floor_6 : list spec_float := Eval vm_compute in step_floor 30 10 floor_5.
Definition floor_7 : list spec_float := Eval vm_compute in step_floor 60 5 floor_6.

(** From every total of [prev], every term of weight [w] for a score of
    at least [lo] leads into [next]. *)
Definition floor_ok (lo w : Z) (prev next : list spec_float) : bool :=
  forallb (fun term => covered next (map (fun t => fadd t term) prev)) (terms_from lo w).

(** A lead in the best shape the scorer knows: total 21. *)
Definition best_lead : Val :=
  Obj [("company_name", Str "Model Startup");
       ("industry", Str "landscaping");
       ("website", Str "https://model.example");
       ("website_quality",
        Obj [("hasWebsite", Bool true); ("hasMobileViewport", Bool true);
             ("hasSSL", Bool true); ("loadTime", Num (ofZ 900));
             ("hasMetaDescription", Bool true); ("titleLength", Num (ofZ 48));
             ("hasGoogleAnalytics", Bool true); ("hasLiveChat", Bool true);
             ("hasFacebookPixel", Bool true)]);
       ("seo_data",
        Obj [("indexed", Bool true); ("estimatedRanking", Num (ofZ 3));
             ("organicKeywords", Num (ofZ 450))]);
       ("ad_presence",
        Obj [("hasGoogleAds", Bool true); ("estimatedAdSpend", Str "High");
             ("hasFacebookAds", Bool true); ("hasYelpAds", Bool true)]);
       ("rating", Num (ofZ 5)); ("review_count", Num (ofZ 400));
       ("review_response_rate", Num (ofZ 90));
       ("social_presence",
        Obj (map (fun platform =>
                    (platform, Obj [("hasProfile", Bool true);
                                    ("engagement", Str "high");
                                    ("followersCount", Num (ofZ 5000))]))
               ["facebook"; "instagram"; "linkedin"; "twitter"; "youtube"]));
       ("estimated_size", Str "Startup");
       ("address", Str "4 Elm St, Flagstaff, AZ")].

(** The [tierDistribution] of the object [generateScoringReport]
    builds. *)
Record TierDistribution := {
  hotLeads : nat;
  warmLeads : nat;
  coldLeads : nat;
  lowPriority : nat
}.

Definition tierDistribution (scoredLeads : list ScoredLead) : TierDistribution :=
  {| hotLeads := length (filter (fun l => sl_tier l = "Hot Lead") scoredLeads);
     warmLeads := length (filter (fun l => sl_tier l = "Warm Lead") scoredLeads);
     coldLeads := length (filter (fun l => sl_tier l = "Cold Lead") scoredLeads);
     lowPriority := length (filter (fun l => sl_tier l = "Low Priority") scoredLeads) |}.

End LeadScorer.

(* ===================================================================== *)
(** * database/schema.sql: the tables the pipeline reads and writes *)
(* ===================================================================== *)

Module Store.
Import Js.

(** [leads.status], with its CHECK constraint. *)
Inductive LeadStatus := StNew | StContacted | StQualified | StConverted | StLost.

#[global] Instance LeadStatus_eq_dec : EqDecision LeadStatus.
Proof. solve_decision. Defined.

(** [messages.status], with its CHECK constraint. *)
Inductive MessageStatus := MsgPending | MsgSent | MsgDelivered | MsgFailed | MsgBounced.

(** A row of [leads].  The scoring and lifecycle columns are fields; the
    remaining columns (company_name, industry, rating, website_quality,
    ...) are the properties [lead_data], as [select('*')] returns them. *)
Record LeadRow := {
  lead_status : LeadStatus;
  lead_score : option Z;
  lead_tier : option string;
  lead_component_scores : option LeadScorer.ComponentScores;
  lead_recommendations : option (list LeadScorer.Recommendation);
  lead_scored_at : option Z;
  lead_updated_at : Z;
  lead_data : list (string * Val)
}.

(** A row of [messages]; timestamps are milliseconds since the epoch. *)
Record MessageRow := {
  m_id : string;
  m_lead_id : option string;
  m_message_id : option string;
  m_status : MessageStatus;
  m_error_message : option string;
  m_delivered_at : option Z;
  m_opened_at : option Z;
  m_clicked_at : option Z
}.

Record NoteRow := {
  n_lead_id : option string;
  n_user_id : option string;
  n_note : string;
  n_created_at : Z
}.

Record ScrapingJobRow := {
  sj_id : string;
  sj_industries : list string;
  sj_locations : list string;
  sj_status : string;
  sj_created_at : Z
}.

(** Modelled from the spec: queues/queue-config.js is not part of the
    sources at hand.  A job carries its queue name, job type, payload,
    priority and optional delay (section 3, "Job"); it "becomes eligible
    for execution only once its delay has elapsed" (section 4.5), so a
    job enqueued with a positive delay sits in the delayed set of its
    queue.  The passage of time is not modelled: the delayed set is the
    jobs of positive delay. *)
Record Job := {
  job_queue : string;
  job_name : string;
  job_data : list (string * Val);
  job_priority : option Z;
  job_delay : Z
}.

Record Db := {
  leads : gmap string LeadRow;
  messages : list MessageRow;
  lead_notes : list NoteRow;
  scraping_jobs : list ScrapingJobRow;
  jobs : list Job
}.

Definition set_leads (f : gmap string LeadRow -> gmap string LeadRow) (db : Db) : Db :=
  {| leads := f (leads db); messages := messages db; lead_notes := lead_notes db;
     scraping_jobs := scraping_jobs db; jobs := jobs db |}.

Definition set_messages (f : list MessageRow -> list MessageRow) (db : Db) : Db :=
  {| leads := leads db; messages := f (messages db); lead_notes := lead_notes db;
     scraping_jobs := scraping_jobs db; jobs := jobs db |}.

Definition set_lead_notes (f : list NoteRow -> list NoteRow) (db : Db) : Db :=
  {| leads := leads db; messages := messages db; lead_notes := f (lead_notes db);
     scraping_jobs := scraping_jobs db; jobs := jobs db |}.

Definition set_scraping_jobs (f : list ScrapingJobRow -> list ScrapingJobRow) (db : Db) : Db :=
  {| leads := leads db; messages := messages db; lead_notes := lead_notes db;
     scraping_jobs := f (scraping_jobs db); jobs := jobs db |}.

Definition set_jobs (f : list Job -> list Job) (db : Db) : Db :=
  {| leads := leads db; messages := messages db; lead_notes := lead_notes db;
     scraping_jobs := scraping_jobs db; jobs := f (jobs db) |}.

(** [.single()]: the row when the filter matches exactly one. *)
Definition single {A} (rows : list A) : option A :=
  match rows with
  | [row] => Some row
  | _ => None
  end.

(** [.from('leads').select(...).eq('id', leadId).single()]: [id] is the
    primary key; a [null] id matches no row. *)
Definition lead_by_id (leadId : option string) (db : Db) : option LeadRow :=
  id ← leadId; leads db !! id.

(** [.from('leads').update(...).eq('id', leadId)]. *)
Definition update_lead (leadId : option string) (f : LeadRow -> LeadRow) (db : Db) : Db :=
  match leadId with
  | Some id => set_leads (alter f id) db
  | None => db
  end.

(** [.from('messages').select(...).eq('lead_id', leadId)]. *)
Definition messages_of_lead (leadId : option string) (db : Db) : list MessageRow :=
  match leadId with
  | Some id => filter (fun m => m_lead_id m = Some id) (messages db)
  | None => []
  end.

(** The lifecycle state of a lead: its status and its score. *)
Definition lead_state (db : Db) (id : string) : option (LeadStatus * option Z) :=
  (fun row => (lead_status row, lead_score row)) <$> leads db !! id.

(** Modelled from the spec: [addJob(queueName, jobType, data, opts)] of
    queues/queue-config.js, which is not part of the sources at hand:
    "Enqueue accepts priority and optional delay" (section 4.5); the job
    joins its queue behind the jobs enqueued before it. *)
Definition addJob (queueName jobType : string) (data : list (string * Val))
    (priority : option Z) (delay : option Z) (db : Db) : Db :=
  set_jobs (fun js => js ++ [{| job_queue := queueName; job_name := jobType;
                                 job_data := data; job_priority := priority;
                                 job_delay := default 0 delay |}]) db.

(** Modelled from the spec: [queue.getDelayed()] of the queue library
    behind queues/queue-config.js, the jobs of the queue still waiting
    for their delay. *)
Definition is_delayed (queueName : string) (job : Job) : bool :=
  String.eqb (job_queue job) queueName && (0 <? job_delay job).

Definition in_queue (queueName : string) (job : Job) : bool :=
  String.eqb (job_queue job) queueName.

(** A lead id as the value of a payload property. *)
Definition id_val (leadId : option string) : Val :=
  match leadId with Some id => Str id | None => Null end.

(** [job.data.leadId === leadId]. *)
Definition job_for_lead (leadId : option string) (job : Job) : bool :=
  match assoc "leadId" (job_data job), leadId with
  | Str s, Some id => String.eqb s id
  | Null, None => true
  | _, _ => false
  end.

(** [new Date(timestamp * 1000).toISOString()]: the instant in
    milliseconds; [None] is the RangeError on a missing or out-of-range
    timestamp. *)
Definition toISOString (timestamp : option Z) : option Z :=
  t ← timestamp;
  if Z.abs (t * 1000) <=? 8640000000000000 then Some (t * 1000) else None.

End Store.

(* ===================================================================== *)
(** * webhooks/email-webhooks.js *)
(* ===================================================================== *)

Module EmailWebhooks.
Import Js Store.

(** [recordLeadActivity(leadId, note, userId)]. *)
Definition recordLeadActivity (now : Z) (leadId : option string) (note : string)
    (userId : option string) (db : Db) : Db :=
  set_lead_notes (fun ns => ns ++ [{| n_lead_id := leadId; n_user_id := userId;
                                      n_note := note; n_created_at := now |}]) db.

Definition with_status (status : LeadStatus) (now : Z) (row : LeadRow) : LeadRow :=
  {| lead_status := status;
     lead_score := lead_score row;
     lead_tier := lead_tier row;
     lead_component_scores := lead_component_scores row;
     lead_recommendations := lead_recommendations row;
     lead_scored_at := lead_scored_at row;
     lead_updated_at := now;
     lead_data := lead_data row |}.

Definition with_score (score : Z) (now : Z) (row : LeadRow) : LeadRow :=
  {| lead_status := lead_status row;
     lead_score := Some score;
     lead_tier := lead_tier row;
     lead_component_scores := lead_component_scores row;
     lead_recommendations := lead_recommendations row;
     lead_scored_at := lead_scored_at row;
     lead_updated_at := now;
     lead_data := lead_data row |}.

(** [updateLeadStatus(leadId, status, notes = null)]: the status is
    written whatever the current one is. *)
Definition updateLeadStatus (now : Z) (leadId : option string) (status : LeadStatus)
    (notes : option string) (db : Db) : Db :=
  let db := update_lead leadId (with_status status now) db in
  match notes with
  | Some note => if String.eqb note "" then db
                 else recordLeadActivity now leadId note (Some "system") db
  | None => db
  end.

(** [lead.lead_score || 0]. *)
Definition score_or_0 (score : option Z) : Z := default 0 score.

(** [incrementEngagementScore(leadId, points)]. *)
Definition incrementEngagementScore (now : Z) (leadId : option string) (points : Z)
    (db : Db) : Db :=
  match lead_by_id leadId db with
  | Some lead =>
      let newScore := Z.min (score_or_0 (lead_score lead) + points) 100 in
      update_lead leadId (with_score newScore now) db
  | None => db
  end.

(** [cancelScheduledFollowUps(leadId)]: every job of
    [queues.followup.getDelayed()] whose [data.leadId] is the lead's is
    removed. *)
Definition cancelScheduledFollowUps (leadId : option string) (db : Db) : Db :=
  set_jobs (filter (fun job =>
              negb (is_delayed "followup" job && job_for_lead leadId job) = true)) db.

(** The rows of [messages] of the lead whose [opened_at] is not null. *)
Definition opens_of (leadId : option string) (db : Db) : list MessageRow :=
  filter (fun m => m_opened_at m <> None) (messages_of_lead leadId db).

(** [handleEmailOpened(leadId, message)]. *)
Definition handleEmailOpened (now : Z) (leadId : option string) (db : Db) : Db :=
  let db := incrementEngagementScore now leadId 5 db in
  let db := recordLeadActivity now leadId "Email opened" (Some "system") db in
  let opens := opens_of leadId db in
  if Nat.eqb (length opens) 1 then
    let db := updateLeadStatus now leadId StQualified (Some "Opened first email") db in
    addJob "enrichment" "enrich-engaged-lead"
      [("leadId", id_val leadId); ("enrichmentType", Str "all")]
      (Some 7) None db
  else db.

(** [handleEmailClicked(leadId, message, url)]; the note quotes the url
    as the template literal prints it. *)
Definition handleEmailClicked (now : Z) (leadId : option string) (url : option string)
    (db : Db) : Db :=
  let db := incrementEngagementScore now leadId 10 db in
  let db := recordLeadActivity now leadId
              ("Clicked link: " +:+ default "undefined" url) (Some "system") db in
  let db := updateLeadStatus now leadId StQualified (Some "Clicked email link") db in
  cancelScheduledFollowUps leadId db.

(** The job [handleEmailOpened] queues for lead [leadId]. *)
Definition enrichment_job (leadId : option string) : Job :=
  {| job_queue := "enrichment"; job_name := "enrich-engaged-lead";
     job_data := [("leadId", id_val leadId); ("enrichmentType", Str "all")];
     job_priority := Some 7; job_delay := 0 |}.

(** The object [updateData]: the columns of the message to write. *)
Record UpdateData := {
  u_status : option MessageStatus;
  u_error_message : option string;
  u_delivered_at : option Z;
  u_opened_at : option Z;
  u_clicked_at : option Z
}.

Definition no_update : UpdateData :=
  {| u_status := None; u_error_message := None; u_delivered_at := None;
     u_opened_at := None; u_clicked_at := None |}.

(** [Object.keys(updateData).length > 0]. *)
Definition has_keys (u : UpdateData) : bool :=
  match u with
  | {| u_status := None; u_error_message := None; u_delivered_at := None;
       u_opened_at := None; u_clicked_at := None |} => false
  | _ => true
  end.

Definition apply_update (u : UpdateData) (m : MessageRow) : MessageRow :=
  {| m_id := m_id m;
     m_lead_id := m_lead_id m;
     m_message_id := m_message_id m;
     m_status := default (m_status m) (u_status u);
     m_error_message := from_option Some (m_error_message m) (u_error_message u);
     m_delivered_at := from_option Some (m_delivered_at m) (u_delivered_at u);
     m_opened_at := from_option Some (m_opened_at m) (u_opened_at u);
     m_clicked_at := from_option Some (m_clicked_at m) (u_clicked_at u) |}.

(** [.from('messages').update(updateData).eq('id', message.id)], run
    when [updateData] has a key. *)
Definition update_message (id : string) (u : UpdateData) (db : Db) : Db :=
  if has_keys u then
    set_messages (map (fun m => if String.eqb (m_id m) id then apply_update u m else m)) db
  else db.

(** [.from('messages').select(...).eq('message_id', id).single()]. *)
Definition message_by_transport_id (id : string) (db : Db) : option MessageRow :=
  single (filter (fun m => m_message_id m = Some id) (messages db)).

(** What a handler keeps of the message it resolved. *)
Definition msg_key (m : MessageRow) : string * option string := (m_id m, m_lead_id m).

(** The leads table after the status [write] for the lead of message [m]
    (no write: the table as it is). *)
Definition written (write : option LeadStatus) (now : Z) (m : option MessageRow)
    (table : gmap string LeadRow) : gmap string LeadRow :=
  match write, m ≫= m_lead_id with
  | Some st, Some id => alter (with_status st now) id table
  | _, _ => table
  end.

(** The message with this transport id is unique and belongs to lead [id]. *)
Definition resolves_to (transport_id id : string) (db : Db) : Prop :=
  exists message, message_by_transport_id transport_id db = Some message /\
                  m_lead_id message = Some id.

(** A SendGrid event; [sg_message_id] is the value as the filter prints
    it, and [e.reason || 'Email bounced'] reads [sg_reason]. *)
Record SendGridEvent := {
  sg_event : string;
  sg_email : string;
  sg_message_id : string;
  sg_timestamp : option Z;
  sg_url : option string;
  sg_reason : option string
}.

(** [a || 'literal'] on an optional string. *)
Definition str_or (a : option string) (lit : string) : string :=
  match a with
  | Some s => if String.eqb s "" then lit else s
  | None => lit
  end.

(** [processSendGridEvent(event)].  A RangeError of [toISOString] is
    raised before the case touches the database and is caught by the
    handler's [try], which leaves the state as it is. *)
Definition processSendGridEvent (now : Z) (event : SendGridEvent) (db : Db) : Db :=
  match message_by_transport_id (sg_message_id event) db with
  | None => db
  | Some message =>
      let leadId := m_lead_id message in
      let eventType := sg_event event in
      if String.eqb eventType "delivered" then
        match toISOString (sg_timestamp event) with
        | None => db
        | Some t =>
            let db := updateLeadStatus now leadId StContacted None db in
            update_message (m_id message)
              {| u_status := Some MsgDelivered; u_error_message := None;
                 u_delivered_at := Some t; u_opened_at := None;
                 u_clicked_at := None |} db
        end
      else if String.eqb eventType "open" then
        match toISOString (sg_timestamp event) with
        | None => db
        | Some t =>
            let db := handleEmailOpened now leadId db in
            update_message (m_id message)
              {| u_status := None; u_error_message := None;
                 u_delivered_at := None; u_opened_at := Some t;
                 u_clicked_at := None |} db
        end
      else if String.eqb eventType "click" then
        match toISOString (sg_timestamp event) with
        | None => db
        | Some t =>
            let db := handleEmailClicked now leadId (sg_url event) db in
            update_message (m_id message)
              {| u_status := None; u_error_message := None;
                 u_delivered_at := None; u_opened_at := None;
                 u_clicked_at := Some t |} db
        end
      else if String.eqb eventType "bounce" || String.eqb eventType "dropped" then
        let db := updateLeadStatus now leadId StLost (Some "Email bounced") db in
        update_message (m_id message)
          {| u_status := Some MsgBounced;
             u_error_message := Some (str_or (sg_reason event) "Email bounced");
             u_delivered_at := None; u_opened_at := None; u_clicked_at := None |} db
      else if String.eqb eventType "spam_report" then
        let db := updateLeadStatus now leadId StLost (Some "Marked as spam") db in
        update_message (m_id message)
          {| u_status := Some MsgFailed;
             u_error_message := Some "Marked as spam";
             u_delivered_at := None; u_opened_at := None; u_clicked_at := None |} db
      else update_message (m_id message) no_update db
  end.

(** [handleSendGridWebhook]: the [for] loop over the posted array. *)
Definition handleSendGridWebhook (now : Z) (events : list SendGridEvent) (db : Db) : Db :=
  fold_left (fun db event => processSendGridEvent now event db) events db.

(** A Mailgun event; [mg_message_id] is [event['message-id']]. *)
Record MailgunEvent := {
  mg_event : string;
  mg_recipient : string;
  mg_message_id : option string;
  mg_timestamp : option Z;
  mg_url : option string;
  mg_error : option string
}.

(** [event['message-id']?.replace(/[<>]/g, '')], as the filter prints it. *)
Definition mailgun_message_id (event : MailgunEvent) : string :=
  match mg_message_id event with
  | Some s =>
      JsString.filter_chars
        (fun c => negb (Ascii.eqb c "<" || Ascii.eqb c ">")) s
  | None => "undefined"
  end.

(** [handleMailgunWebhook(req, res)]: the effect on the database. *)
Definition handleMailgunWebhook (now : Z) (event : MailgunEvent) (db : Db) : Db :=
  match message_by_transport_id (mailgun_message_id event) db with
  | None => db
  | Some message =>
      let leadId := m_lead_id message in
      let eventType := mg_event event in
      if String.eqb eventType "delivered" then
        match toISOString (mg_timestamp event) with
        | None => db
        | Some t =>
            let db := updateLeadStatus now leadId StContacted None db in
            update_message (m_id message)
              {| u_status := Some MsgDelivered; u_error_message := None;
                 u_delivered_at := Some t; u_opened_at := None;
                 u_clicked_at := None |} db
        end
      else if String.eqb eventType "opened" then
        match toISOString (mg_timestamp event) with
        | None => db
        | Some t =>
            let db := handleEmailOpened now leadId db in
            update_message (m_id message)
              {| u_status := None; u_error_message := None;
                 u_delivered_at := None; u_opened_at := Some t;
                 u_clicked_at := None |} db
        end
      else if String.eqb eventType "clicked" then
        match toISOString (mg_timestamp event) with
        | None => db
        | Some t =>
            let db := handleEmailClicked now leadId (mg_url event) db in
            update_message (m_id message)
              {| u_status := None; u_error_message := None;
                 u_delivered_at := None; u_opened_at := None;
                 u_clicked_at := Some t |} db
        end
      else if String.eqb eventType "bounced" || String.eqb eventType "failed" then
        let db := updateLeadStatus now leadId StLost (Some "Email bounced") db in
        update_message (m_id message)
          {| u_status := Some MsgBounced;
             u_error_message := Some (str_or (mg_error event) "Email bounced");
             u_delivered_at := None; u_opened_at := None; u_clicked_at := None |} db
      else if String.eqb eventType "complained" then
        let db := updateLeadStatus now leadId StLost (Some "Spam complaint") db in
        update_message (m_id message)
          {| u_status := Some MsgFailed;
             u_error_message := Some "Spam complaint";
             u_delivered_at := None; u_opened_at := None; u_clicked_at := None |} db
      else update_message (m_id message) no_update db
  end.


(** The columns of a lead that scoring writes or reads and no webhook
    handler names: tier, component scores, recommendations, the scoring
    time and the scraped data. *)
Definition scoring_columns (row : LeadRow)
  : option string * option LeadScorer.ComponentScores *
    option (list LeadScorer.Recommendation) * option Z * list (string * Val) :=
  (lead_tier row, lead_component_scores row, lead_recommendations row,
   lead_scored_at row, lead_data row).

(** What identifies a message: its id, its lead and its transport id. *)
Definition msg_ident (m : MessageRow) : string * option string * option string :=
  (m_id m, m_lead_id m, m_message_id m).

(** The CHECK constraint on [leads.lead_score]: null, or between 0 and
    100. *)
Definition score_in_range (row : LeadRow) : Prop :=
  match lead_score row with
  | Some s => 0 <= s <= 100
  | None => True
  end.

Definition scores_in_range (db : Db) : Prop :=
  map_Forall (fun _ row => score_in_range row) (leads db).

(** A lead with one message sent to it and the follow-up sequence
    waiting in the delayed set. *)
Definition example_lead (status : LeadStatus) (score : option Z) : LeadRow :=
  {| lead_status := status; lead_score := score; lead_tier := None;
     lead_component_scores := None; lead_recommendations := None;
     lead_scored_at := None; lead_updated_at := 0;
     lead_data := [("company_name", Str "ABC Plumbing"); ("industry", Str "PLUMBING")] |}.

Definition example_message : MessageRow :=
  {| m_id := "M1"; m_lead_id := Some "L1"; m_message_id := Some "sg-1";
     m_status := MsgSent; m_error_message := None; m_delivered_at := None;
     m_opened_at := None; m_clicked_at := None |}.

Definition example_followup (days : Z) (sequence : string) : Job :=
  {| job_queue := "followup"; job_name := sequence;
     job_data := [("leadId", Str "L1"); ("industry", Str "PLUMBING");
                  ("sequence", Str sequence)];
     job_priority := Some 5; job_delay := days * 24 * 60 * 60 * 1000 |}.

Definition example_db (status : LeadStatus) (score : option Z) : Db :=
  {| leads := {[ "L1" := example_lead status score ]};
     messages := [example_message];
     lead_notes := [];
     scraping_jobs := [];
     jobs := [example_followup 3 "followup-1"; example_followup 7 "followup-2";
              example_followup 14 "case-study"] |}.

Definition example_event (kind : string) : SendGridEvent :=
  {| sg_event := kind; sg_email := "owner@abcplumbing.example";
     sg_message_id := "sg-1"; sg_timestamp := Some 1700000000;
     sg_url := None; sg_reason := None |}.

Definition example_mailgun_event (kind : string) : MailgunEvent :=
  {| mg_event := kind; mg_recipient := "owner@abcplumbing.example";
     mg_message_id := Some "<sg-1>"; mg_timestamp := Some 1700000000;
     mg_url := None; mg_error := None |}.

End EmailWebhooks.

(* ===================================================================== *)
(** * The process environment *)
(* ===================================================================== *)

Module Env.

(** The variables of [process.env] the pipeline reads; [None] is an
    unset variable. *)
Record Env := {
  AUTO_EMAIL_THRESHOLD : option string;
  TARGET_INDUSTRIES : option string;
  TARGET_LOCATIONS : option string
}.

Definition is_space (c : ascii) : bool :=
  let n := nat_of_ascii c in
  (Nat.eqb n 32 || (Nat.leb 9 n && Nat.leb n 13))%bool.

Fixpoint skip_spaces (s : string) : string :=
  match s with
  | String c r => if is_space c then skip_spaces r else s
  | EmptyString => s
  end.

Definition digit_value (radix : Z) (c : ascii) : option Z :=
  let n := Z.of_nat (nat_of_ascii c) in
  let d := if (48 <=? n) && (n <=? 57) then Some (n - 48)
           else if (97 <=? n) && (n <=? 122) then Some (n - 87)
           else if (65 <=? n) && (n <=? 90) then Some (n - 55)
           else None in
  match d with
  | Some v => if v <? radix then Some v else None
  | None => None
  end.

(** The longest prefix of digits, read in [radix]; [None] when there is
    no digit at all. *)
Fixpoint digits (radix : Z) (acc : option Z) (s : string) : option Z :=
  match s with
  | String c r =>
      match digit_value radix c with
      | Some v => digits radix (Some (default 0 acc * radix + v)) r
      | None => acc
      end
  | EmptyString => acc
  end.

(** [parseInt(string)] without a radix; [None] is [NaN].  Leading ASCII
    white space is skipped, a sign and a [0x] prefix are read, and the
    digits stop at the first character that is none. *)
Definition parseInt (s : string) : option Z :=
  let s := skip_spaces s in
  let '(sign, s) :=
    match s with
    | String "-" r => (-1, r)
    | String "+" r => (1, r)
    | _ => (1, s)
    end in
  let '(radix, s) :=
    match s with
    | String "0" (String "x" r) => (16, r)
    | String "0" (String "X" r) => (16, r)
    | _ => (10, s)
    end in
  v ← digits radix None s; Some (sign * v).

(** [parseInt(process.env.AUTO_EMAIL_THRESHOLD || '80')]. *)
Definition hotLeadThreshold (env : Env) : option Z :=
  parseInt (EmailWebhooks.str_or (AUTO_EMAIL_THRESHOLD env) "80").



Definition default_env : Env :=
  {| AUTO_EMAIL_THRESHOLD := None; TARGET_INDUSTRIES := None;
     TARGET_LOCATIONS := None |}.

End Env.

(* ===================================================================== *)
(** * workers/processors/scoring-processor.js *)
(* ===================================================================== *)

Module ScoringProcessor.
Import Js Store.

Section WithRuntime.
Context `{Runtime}.

(** [lead.industry], a property of the fetched row. *)
Definition industry_of (lead : LeadRow) : Val := assoc "industry" (lead_data lead).

(** [scheduleFollowUpSequence(leadId, lead)]: the three entries of
    [followUpSchedule], each with its delay in days turned into
    milliseconds. *)
Definition followUpSchedule : list (Z * string) :=
  [(3, "followup-1"); (7, "followup-2"); (14, "case-study")].

Definition scheduleFollowUpSequence (leadId : string) (lead : LeadRow) (db : Db) : Db :=
  fold_left
    (fun db followUp =>
       addJob "followup" (snd followUp)
         [("leadId", Str leadId); ("industry", industry_of lead);
          ("sequence", Str (snd followUp))]
         (Some 5) (Some (fst followUp * 24 * 60 * 60 * 1000)) db)
    followUpSchedule db.

(** [scoreData.totalScore < hotLeadThreshold]; a comparison with [NaN]
    is false. *)
Definition below_threshold (totalScore : Z) (threshold : option Z) : bool :=
  match threshold with
  | Some t => totalScore <? t
  | None => false
  end.

(** [triggerHotLeadCampaign(leadId, lead, scoreData)]. *)
Definition triggerHotLeadCampaign (env : Env.Env) (leadId : string) (lead : LeadRow)
    (scoreData : LeadScorer.ScoreData) (db : Db) : Db :=
  if below_threshold (LeadScorer.totalScore scoreData) (Env.hotLeadThreshold env) then db
  else
    let existingMessages := take 1 (messages_of_lead (Some leadId) db) in
    if Nat.ltb 0 (length existingMessages) then db
    else
      let db :=
        addJob "email" "send-intro-email"
          [("leadId", Str leadId); ("templateType", Str "intro");
           ("industry", industry_of lead); ("priority", Str "high");
           ("autoTriggered", Bool true)]
          (Some 10) (Some 300000) db in
      scheduleFollowUpSequence leadId lead db.

Definition with_scoreData (scoreData : LeadScorer.ScoreData) (now : Z) (row : LeadRow)
  : LeadRow :=
  {| lead_status := lead_status row;
     lead_score := Some (LeadScorer.totalScore scoreData);
     lead_tier := Some (LeadScorer.tier scoreData);
     lead_component_scores := Some (LeadScorer.componentScores scoreData);
     lead_recommendations := Some (LeadScorer.recommendations scoreData);
     lead_scored_at := Some (LeadScorer.calculatedAt scoreData);
     lead_updated_at := now;
     lead_data := lead_data row |}.

(** The value [scoreSingleLead] returns. *)
Record ScoreResult := {
  r_leadId : string;
  r_score : Z;
  r_tier : string
}.

(** [scoreSingleLead(leadId)]: [None] is a thrown error (lead not found,
    or a TypeError of the scorer); the database is then as it was. *)
Definition scoreSingleLead (env : Env.Env) (now : Z) (leadId : string) (db : Db)
  : option (ScoreResult * Db) :=
  lead ← lead_by_id (Some leadId) db;
  scoreData ← LeadScorer.calculateScore now (Obj (lead_data lead));
  let db := update_lead (Some leadId) (with_scoreData scoreData now) db in
  let db :=
    if 80 <=? LeadScorer.totalScore scoreData
    then triggerHotLeadCampaign env leadId lead scoreData db
    else db in
  Some ({| r_leadId := leadId; r_score := LeadScorer.totalScore scoreData;
           r_tier := LeadScorer.tier scoreData |}, db).

(** The jobs of the automatic campaign for a hot lead, in the order they
    are queued: the intro email held back five minutes, then the three
    follow-ups at day 3, day 7 and day 14. *)
Definition campaign_jobs (leadId : string) (lead : LeadRow) : list Job :=
  [ {| job_queue := "email"; job_name := "send-intro-email";
       job_data := [("leadId", Str leadId); ("templateType", Str "intro");
                    ("industry", industry_of lead); ("priority", Str "high");
                    ("autoTriggered", Bool true)];
       job_priority := Some 10; job_delay := 300000 |};
    {| job_queue := "followup"; job_name := "followup-1";
       job_data := [("leadId", Str leadId); ("industry", industry_of lead);
                    ("sequence", Str "followup-1")];
       job_priority := Some 5; job_delay := 3 * 86400000 |};
    {| job_queue := "followup"; job_name := "followup-2";
       job_data := [("leadId", Str leadId); ("industry", industry_of lead);
                    ("sequence", Str "followup-2")];
       job_priority := Some 5; job_delay := 7 * 86400000 |};
    {| job_queue := "followup"; job_name := "case-study";
       job_data := [("leadId", Str leadId); ("industry", industry_of lead);
                    ("sequence", Str "case-study")];
       job_priority := Some 5; job_delay := 14 * 86400000 |} ].

(** [scoreSingleLead] reaches the queueing code of
    [triggerHotLeadCampaign]: the total passes the literal 80 of
    [scoreSingleLead] and the configured threshold, and the lead has no
    message. *)
Definition campaign_fires (env : Env.Env) (total : Z) (leadId : string) (db : Db) : bool :=
  (80 <=? total) && negb (below_threshold total (Env.hotLeadThreshold env)) &&
  Nat.eqb (length (messages_of_lead (Some leadId) db)) 0.

(** [scoreSingleLead(leadId)] on a value of a job payload.  The ids of
    [leads] are uuids, which a payload carries as strings:
    [.eq('id', leadId)] finds no row for any other value, and the lead is
    reported as not found. *)
Definition scoreSingleLead_of (env : Env.Env) (now : Z) (leadId : Val) (db : Db)
  : option (ScoreResult * Db) :=
  match leadId with
  | Str id => scoreSingleLead env now id db
  | _ => None
  end.

(** The object [scoreBatchLeads] returns.  An entry of [errors] is
    [{ leadId, error: error.message }]; its [leadId] is kept. *)
Record BatchResult := {
  totalProcessed : nat;
  successful : nat;
  failed : nat;
  results : list ScoreResult;
  errors : list Val
}.

(** One round of the [for] loop of [scoreBatchLeads]: the [try] block,
    and the [catch] block. *)
Definition batch_step (env : Env.Env) (now : Z)
    (st : list ScoreResult * list Val * Db) (leadId : Val)
  : list ScoreResult * list Val * Db :=
  let '(results, errors, db) := st in
  match scoreSingleLead_of env now leadId db with
  | Some (result, db) => (results ++ [result], errors, db)
  | None => (results, errors ++ [leadId], db)
  end.

(** [scoreBatchLeads(leadIds)]. *)
Definition scoreBatchLeads (env : Env.Env) (now : Z) (leadIds : list Val) (db : Db)
  : BatchResult * Db :=
  let '(results, errors, db) := fold_left (batch_step env now) leadIds ([], [], db) in
  ({| totalProcessed := length leadIds;
      successful := length results;
      failed := length errors;
      results := results;
      errors := errors |}, db).

(** What [process] returns. *)
Inductive Processed :=
| Single (result : ScoreResult)
| Batch (result : BatchResult).

(** [process(job)], on the payload [job.data]; [None] is a thrown
    error. *)
Definition process (env : Env.Env) (now : Z) (data : list (string * Val)) (db : Db)
  : option (Processed * Db) :=
  let leadId := assoc "leadId" data in
  let leadIds := assoc "leadIds" data in
  if truthy leadId then
    '(result, db) ← scoreSingleLead_of env now leadId db;
    Some (Single result, db)
  else
    match leadIds with
    | Arr ids =>
        let '(result, db) := scoreBatchLeads env now ids db in
        Some (Batch result, db)
    | _ => None
    end.


End WithRuntime.




(** A never-contacted lead with no digital presence at all: total 92. *)
Definition hot_lead : LeadRow :=
  {| lead_status := StNew; lead_score := None; lead_tier := None;
     lead_component_scores := None; lead_recommendations := None;
     lead_scored_at := None; lead_updated_at := 0;
     lead_data := [("company_name", Str "ABC Plumbing"); ("industry", Str "plumbing")] |}.

Definition hot_db : Db :=
  {| leads := {[ "L1" := hot_lead ]};
     messages := [EmailWebhooks.example_message];
     lead_notes := []; scraping_jobs := []; jobs := [] |}.

End ScoringProcessor.

(* ===================================================================== *)
(** * workers/processors/followup-processor.js *)
(* ===================================================================== *)

Module FollowupProcessor.
Import Js Store.

Inductive Outcome :=
| Skipped (reason : string)
| Queued (templateType : string).

(** [checkIfLeadReplied(leadId)]. *)
Definition checkIfLeadReplied (leadId : option string) (db : Db) : bool :=
  let clicked := filter (fun m => m_clicked_at m <> None) (messages_of_lead leadId db) in
  if Nat.ltb 0 (length clicked) then true
  else match lead_by_id leadId db with
       | Some lead => bool_decide (lead_status lead = StQualified)
       | None => false
       end.

(** [getFollowUpTemplate(sequence, lead)]. *)
Definition getFollowUpTemplate (sequence : string) : string :=
  if String.eqb sequence "followup-1" then "followup-1"
  else if String.eqb sequence "followup-2" then "followup-2"
  else if String.eqb sequence "case-study" then "case-study"
  else if String.eqb sequence "final-touch" then "final-touch"
  else "followup-1".

(** [process(job)] for a job whose payload carries a string [leadId] and
    [sequence]; [None] is the error thrown for a lead that is not found. *)
Definition process (now : Z) (leadId sequence : string) (industry : Val) (db : Db)
  : option (Outcome * Db) :=
  lead ← lead_by_id (Some leadId) db;
  if bool_decide (lead_status lead = StConverted) then Some (Skipped "lead_converted", db)
  else if bool_decide (lead_status lead = StLost) then Some (Skipped "lead_lost", db)
  else if checkIfLeadReplied (Some leadId) db then Some (Skipped "lead_replied", db)
  else
    let templateType := getFollowUpTemplate sequence in
    let db :=
      addJob "email" "send-followup-email"
        [("leadId", Str leadId); ("templateType", Str templateType);
         ("industry", industry); ("sequence", Str sequence);
         ("priority", Str "normal"); ("autoTriggered", Bool true)]
        (Some 6) None db in
    let db :=
      EmailWebhooks.recordLeadActivity now (Some leadId)
        ("Automated follow-up " +:+ sequence +:+ " sent") None db in
    Some (Queued templateType, db).



End FollowupProcessor.

(* ===================================================================== *)
(** * workers/processors/email-processor.js *)
(* ===================================================================== *)

Module EmailProcessor.
Import Js Store.

(** What [loadEmailTemplate] and [sendEmail] come to, the file system
    and the mail transport being outside this development: the
    transport's result with its [messageId], or the error one of the two
    throws, with its message. *)
Inductive Delivery :=
| Accepted (messageId : option string)
| Refused (message : string).

(** What [process] returns or throws. *)
Inductive Outcome :=
| Success (leadId : string) (messageId : option string) (recipient : Val)
| Skipped (reason : string)
| Thrown (message : string).

(** [a || null] on an optional string. *)
Definition or_null (a : option string) : option string :=
  match a with
  | Some s => if String.eqb s "" then None else Some s
  | None => None
  end.

(** [errorMessage ? 'failed' : 'sent']. *)
Definition status_of (errorMessage : option string) : MessageStatus :=
  match or_null errorMessage with
  | Some _ => MsgFailed
  | None => MsgSent
  end.

(** [recordMessage(leadId, campaignId, content, result, errorMessage)],
    with [messageId] for [result?.messageId] and [newId] for the id the
    database gives the row.  [messages.lead_id] references [leads(id)]:
    the insert of a row for a lead that is not in the table is refused,
    which [recordMessage] logs and passes over.  (The campaigns are not
    modelled: a [campaignId] is taken to name one.) *)
Definition recordMessage (newId leadId : string) (messageId errorMessage : option string)
    (db : Db) : Db :=
  match leads db !! leadId with
  | Some _ =>
      set_messages
        (fun rows => rows ++ [{| m_id := newId; m_lead_id := Some leadId;
                                 m_message_id := or_null messageId;
                                 m_status := status_of errorMessage;
                                 m_error_message := errorMessage;
                                 m_delivered_at := None; m_opened_at := None;
                                 m_clicked_at := None |}]) db
  | None => db
  end.

(** [updateLeadStatus(leadId, status)], the processor's own. *)
Definition updateLeadStatus (now : Z) (leadId : string) (status : LeadStatus) (db : Db)
  : Db :=
  update_lead (Some leadId) (EmailWebhooks.with_status status now) db.

(** [process(job)] for a job whose payload carries a string [leadId];
    in the [Thrown] case the job fails with that message, after the
    [catch] block has run. *)
Definition process (newId : string) (delivery : Delivery) (now : Z) (leadId : string)
    (db : Db) : Outcome * Db :=
  match lead_by_id (Some leadId) db with
  | None =>
      let message := "Lead " +:+ leadId +:+ " not found" in
      (Thrown message, recordMessage newId leadId None (Some message) db)
  | Some lead =>
      let email := assoc "email" (lead_data lead) in
      if negb (truthy email) then (Skipped "no_email", db)
      else
        match delivery with
        | Accepted messageId =>
            let db := recordMessage newId leadId messageId None db in
            let db := updateLeadStatus now leadId StContacted db in
            (Success leadId messageId email, db)
        | Refused message =>
            (Thrown message, recordMessage newId leadId None (Some message) db)
        end
  end.

(** A lead with an address, for the examples. *)
Definition example_lead (status : LeadStatus) : LeadRow :=
  {| lead_status := status; lead_score := Some 92; lead_tier := Some "Hot Lead";
     lead_component_scores := None; lead_recommendations := None;
     lead_scored_at := Some 1; lead_updated_at := 1;
     lead_data := [("company_name", Str "ABC Plumbing"); ("industry", Str "plumbing");
                   ("email", Str "owner@abcplumbing.example")] |}.

Definition example_db (status : LeadStatus) : Db :=
  {| leads := {[ "L1" := example_lead status ]}; messages := []; lead_notes := [];
     scraping_jobs := []; jobs := [] |}.

End EmailProcessor.

(* ===================================================================== *)
(** * automation/cron-scheduler.js *)
(* ===================================================================== *)

Module CronScheduler.
Import Js Store.












(** The leads the follow-up check is after: contacted, and not touched
    for three days. *)
Definition due_for_followup (now : Z) (lead : LeadRow) : Prop :=
  lead_status lead = StContacted /\ 3 * 86400000 <= now - lead_updated_at lead.

#[global] Instance due_for_followup_dec now lead : Decision (due_for_followup now lead).
Proof. unfold due_for_followup. apply _. Defined.

End CronScheduler.

(* ===================================================================== *)
(** * scrapers/home-service-scraper.js: enrichment *)
(* ===================================================================== *)

Module LeadEnrichment.
Import Js HomeServiceScraper.

(** A candidate with the properties [enrichLeads] assigns to it;
    [Undefined] stands for a property that has not been assigned.  No
    scraper and no step of the enrichment gives a candidate an [id]. *)
Record Enriched := {
  base : LeadCandidate;
  websiteQuality : Val;
  estimatedSize : Val;
  seoData : Val;
  adPresence : Val
}.

(** What the three look-ups of one round of [enrichLeads] return.  Each
    of [analyzeWebsite], [checkSEORankings] and [checkAdPresence]
    catches its own errors and returns an object in every case; the
    network and [Math.random] behind them are outside this
    development. *)
Record Observation := {
  page : Val;
  seo : Val;
  ads : Val
}.

(** [v?.k]. *)
Definition opt_get (v : Val) (k : string) : Val :=
  match get v k with
  | Some x => x
  | None => Undefined
  end.

(** [lead.reviewCount > n], false on a missing count. *)
Definition reviews_over (lead : Enriched) (n : Z) : bool :=
  match reviewCount (base lead) with
  | Some count => n <? count
  | None => false
  end.

(** [lead.rating >= 4.5], false on a missing rating and on [NaN]. *)
Definition rated_high (lead : Enriched) : bool :=
  match rating (base lead) with
  | Some r => SFleb LeadScorer.four_and_a_half r
  | None => false
  end.

Definition sizeIndicators (lead : Enriched) : Z :=
  let sizeIndicators := 0 in
  let sizeIndicators :=
    if reviews_over lead 200 then sizeIndicators + 3
    else if reviews_over lead 100 then sizeIndicators + 2
    else if reviews_over lead 50 then sizeIndicators + 1
    else sizeIndicators in
  let sizeIndicators :=
    if truthy (opt_get (websiteQuality lead) "hasLiveChat")
    then sizeIndicators + 2 else sizeIndicators in
  let sizeIndicators :=
    if truthy (opt_get (websiteQuality lead) "hasFacebookPixel")
    then sizeIndicators + 1 else sizeIndicators in
  let sizeIndicators :=
    if truthy (opt_get (websiteQuality lead) "hasGoogleAnalytics")
    then sizeIndicators + 1 else sizeIndicators in
  if rated_high lead && reviews_over lead 100 then sizeIndicators + 1 else sizeIndicators.

(** [estimateCompanySize(lead)]. *)
Definition estimateCompanySize (lead : Enriched) : string :=
  let sizeIndicators := sizeIndicators lead in
  if 5 <=? sizeIndicators then "Large"
  else if 3 <=? sizeIndicators then "Medium"
  else "Small".

(** [lead.website] is truthy. *)
Definition has_website (lead : LeadCandidate) : bool :=
  match website lead with
  | Some url => negb (String.eqb url "")
  | None => false
  end.

(** One round of the [for] loop of [enrichLeads].  Nothing in the [try]
    block raises ([rateLimiter.checkLimit] only waits), so the [catch]
    block does not run. *)
Definition enrichLead (obs : Observation) (lead : LeadCandidate) : Enriched :=
  let websiteQuality := if has_website lead then page obs else Undefined in
  let lead1 := {| base := lead; websiteQuality := websiteQuality;
                  estimatedSize := Undefined; seoData := Undefined;
                  adPresence := Undefined |} in
  {| base := lead;
     websiteQuality := websiteQuality;
     estimatedSize := Str (estimateCompanySize lead1);
     seoData := if has_website lead then seo obs else Undefined;
     adPresence := ads obs |}.

(** [enrichLeads(leads)]; [observe i] is what the look-ups return in
    round [i]. *)
Definition enrichLeads (observe : nat -> Observation) (leads : list LeadCandidate)
  : list Enriched :=
  imap (fun i lead => enrichLead (observe i) lead) leads.

(** [push(...result.value)] for a fulfilled promise. *)
Definition fulfilled (result : option (list LeadCandidate)) : list LeadCandidate :=
  default [] result.

(** The value [scrapeAllSources(industry, location)] returns, from what
    the three source scrapers settled with ([None]: rejected).
    [saveLeads], which runs before the return, catches the error of
    every row it fails to write and leaves the list as it is; the rows
    it writes are not part of this definition. *)
Definition scrapeAllSources (observe : nat -> Observation)
    (googleLeads yelpLeads yellowPagesLeads : option (list LeadCandidate))
  : list Enriched :=
  let leads := fulfilled googleLeads ++ fulfilled yelpLeads ++ fulfilled yellowPagesLeads in
  let uniqueLeads := deduplicateLeads leads in
  enrichLeads observe uniqueLeads.

(** The own properties of a lead object, as the source scrapers write
    them and [enrichLeads] adds to them; a missing field is a missing
    property. *)
Definition opt_prop {A} (k : string) (f : A -> Val) (x : option A) : list (string * Val) :=
  match x with
  | Some a => [(k, f a)]
  | None => []
  end.

Definition properties (lead : Enriched) : list (string * Val) :=
  [("name", Str (name (base lead)))] ++
  opt_prop "rating" Num (rating (base lead)) ++
  opt_prop "reviewCount" (fun n => Num (ofZ n)) (reviewCount (base lead)) ++
  [("address", Str (address (base lead)))] ++
  opt_prop "phone" Str (phone (base lead)) ++
  opt_prop "website" Str (website (base lead)) ++
  [("source", Str (source (base lead)));
   ("websiteQuality", websiteQuality lead);
   ("estimatedSize", estimatedSize lead);
   ("seoData", seoData lead);
   ("adPresence", adPresence lead)].

(** [a || null] on an optional property. *)
Definition or_null {A} (f : A -> Val) (x : option A) : Val :=
  match x with
  | Some a => or (f a) Null
  | None => Null
  end.

(** The object [leadData] that [saveLeads(leads, industry)] builds for a
    lead and hands to [saveLeadToSupabase]; [now] is the instant of
    [scraped_at]. *)
Definition leadData (now : Z) (industry : string) (lead : Enriched)
  : list (string * Val) :=
  [("company_name", Str (name (base lead)));
   ("website", or_null Str (website (base lead)));
   ("phone", or_null Str (phone (base lead)));
   ("address", or (Str (address (base lead))) Null);
   ("industry", Str industry);
   ("estimated_size", or (estimatedSize lead) (Str "Unknown"));
   ("rating", or_null Num (rating (base lead)));
   ("review_count", or_null (fun n => Num (ofZ n)) (reviewCount (base lead)));
   ("source", Str (source (base lead)));
   ("website_quality", or (websiteQuality lead) (Obj []));
   ("seo_data", or (seoData lead) (Obj []));
   ("ad_presence", or (adPresence lead) (Obj []));
   ("scraped_at", Num (ofZ now));
   ("status", Str "new")].

(** An observation for the examples: a page with a chat widget and
    analytics. *)
Definition example_observation : Observation :=
  {| page := Obj [("hasWebsite", Bool true); ("hasLiveChat", Bool true);
                  ("hasGoogleAnalytics", Bool true); ("hasFacebookPixel", Bool false)];
     seo := Obj [("indexed", Bool true)];
     ads := Obj [("hasGoogleAds", Bool false); ("estimatedAdSpend", Str "None")] |}.

Definition example_candidate : LeadCandidate :=
  {| name := "ABC Plumbing"; address := "1 Main St, Phoenix, AZ"; phone := None;
     website := Some "https://abc.example"; rating := Some (fdiv (ofZ 9) (ofZ 2));
     reviewCount := Some 120; source := "Google Maps" |}.

End LeadEnrichment.

(* ===================================================================== *)
(** * workers/processors/scraping-processor.js *)
(* ===================================================================== *)

Module ScrapingProcessor.
Import Js Store.

(** An entry of [results.errors]. *)
Record ScrapeError := {
  e_industry : string;
  e_location : string;
  e_error : string
}.

(** The object [results]; [leadsByIndustry] is keyed by
    [`${industry}_${location}`]. *)
Record Results := {
  totalLeadsScraped : nat;
  leadsByIndustry : gmap string nat;
  errors : list ScrapeError
}.

(** What one call of [scraper.scrapeAllSources(industry, location)] comes
    to: the leads it returns or the message of the error it throws, and
    the database as [saveLeads] left it.  The call is the [n]-th of the
    job. *)
Definition Scrape : Type :=
  nat -> string -> string -> Db -> (list LeadEnrichment.Enriched + string) * Db.

(** [updateScrapingJobStatus(jobId, status, results)]: nothing for a
    falsy [jobId], and no row for a [jobId] that is no id. *)
Definition updateScrapingJobStatus (jobId : Val) (status : string) (db : Db) : Db :=
  if negb (truthy jobId) then db
  else
    match jobId with
    | Str id =>
        set_scraping_jobs
          (map (fun row => if String.eqb (sj_id row) id
                           then {| sj_id := sj_id row; sj_industries := sj_industries row;
                                   sj_locations := sj_locations row; sj_status := status;
                                   sj_created_at := sj_created_at row |}
                           else row)) db
    | _ => db
    end.

(** The loop over [leads] that queues the scoring jobs. *)
Definition queue_scoring (leads : list LeadEnrichment.Enriched) (db : Db) : Db :=
  fold_left
    (fun db lead =>
       addJob "scoring" "score-lead"
         [("leadId", assoc "id" (LeadEnrichment.properties lead))]
         (Some 8) None db)
    leads db.

(** The body of the inner loop, for one industry and one location: the
    [try] block, and the [catch] block.  The state is the number of
    calls made, [results] and the database. *)
Definition scrape_pair (scrape : Scrape) (industry : string)
    (st : nat * Results * Db) (location : string) : nat * Results * Db :=
  let '(n, results, db) := st in
  match scrape n industry location db with
  | (inl leads, db) =>
      let results :=
        {| totalLeadsScraped := totalLeadsScraped results + length leads;
           leadsByIndustry :=
             <[industry +:+ "_" +:+ location := length leads]> (leadsByIndustry results);
           errors := errors results |} in
      (S n, results, queue_scoring leads db)
  | (inr message, db) =>
      let results :=
        {| totalLeadsScraped := totalLeadsScraped results;
           leadsByIndustry := leadsByIndustry results;
           errors := errors results ++
                     [{| e_industry := industry; e_location := location;
                         e_error := message |}] |} in
      (S n, results, db)
  end.

(** [process(job)] for a job whose payload carries the arrays
    [industries] and [locations], as the triggers queue it. *)
Definition process (scrape : Scrape) (jobId : Val) (industries locations : list string)
    (db : Db) : Results * Db :=
  let results := {| totalLeadsScraped := 0; leadsByIndustry := ∅; errors := [] |} in
  let db := updateScrapingJobStatus jobId "running" db in
  let '(_, results, db) :=
    fold_left
      (fun st industry => fold_left (scrape_pair scrape industry) locations st)
      industries (0%nat, results, db) in
  let db := updateScrapingJobStatus jobId "completed" db in
  (results, db).




End ScrapingProcessor.

(* ===================================================================== *)
(** * utils/rate-limiter.js: class RateLimiter *)
(* ===================================================================== *)

Module RateLimiter.








End RateLimiter.

(* ===================================================================== *)
(** * Deduplication (scrapers/home-service-scraper.js) *)
(* ===================================================================== *)

Section Deduplication.
Import HomeServiceScraper.

Lemma filterSeen_key (k : string) (seen : gset string) (leads : list LeadCandidate) :
  filter (fun lead => dedupKey lead = k) (filterSeen seen leads) =
  if decide (k ∈ seen) then []
  else option_list (head (filter (fun lead => dedupKey lead = k) leads)).
Proof.
  revert seen. induction leads as [|lead rest IH]; intros seen; cbn [filterSeen].
  - by destruct (decide (k ∈ seen)).
  - rewrite (filter_cons _ lead rest).
    destruct (decide (dedupKey lead ∈ seen)) as [Hin|Hout].
    + rewrite IH. destruct (decide (dedupKey lead = k)) as [Heq|Hne]; [|done].
      subst k. by destruct (decide (dedupKey lead ∈ seen)).
    + rewrite filter_cons, IH.
      destruct (decide (dedupKey lead = k)) as [Heq|Hne].
      * subst k. destruct (decide (dedupKey lead ∈ seen)) as [|_]; [done|].
        destruct (decide (dedupKey lead ∈ {[dedupKey lead]} ∪ seen)) as [|Hn]; [done|].
        exfalso. apply Hn, elem_of_union_l. by apply elem_of_singleton.
      * destruct (decide (k ∈ seen)) as [Hk|Hk];
          destruct (decide (k ∈ {[dedupKey lead]} ∪ seen)) as [Hk'|Hk']; try done.
        -- exfalso. by apply Hk', elem_of_union_r.
        -- exfalso. apply elem_of_union in Hk' as [Hs|Hs]; [|done].
           apply elem_of_singleton in Hs. congruence.
Qed.

Lemma filterSeen_sublist (seen : gset string) (leads : list LeadCandidate) :
  sublist (filterSeen seen leads) leads.
Proof.
  revert seen. induction leads as [|lead rest IH]; intros seen; simpl; [done|].
  destruct (decide _); [apply sublist_cons|apply sublist_skip]; apply IH.
Qed.

(** C1, as the code has it.  The identity key of [deduplicateLeads] is
    the lower-cased name, a dash, and the lower-cased address.  For every
    input list the output is a sub-list of the input (the candidates are
    kept whole and in order), and for every key the output holds exactly
    the first candidate of the input with that key: one when the key
    occurs, none otherwise. *)
Theorem deduplicateLeads_first_per_key (leads : list LeadCandidate) :
  sublist (deduplicateLeads leads) leads /\
  forall k : string,
    filter (fun lead => dedupKey lead = k) (deduplicateLeads leads) =
    option_list (head (filter (fun lead => dedupKey lead = k) leads)).
Proof.
  split; [apply filterSeen_sublist|].
  intros k. unfold deduplicateLeads. rewrite filterSeen_key.
  destruct (decide _); [set_solver|done].
Qed.

(** C1, as the specification words it, fails: two candidates that differ
    in spacing and punctuation only share the normalised identity key of
    the specification, and both survive. *)
Lemma deduplicateLeads_keeps_punctuation_variants :
  exists a b : LeadCandidate,
    deduplicateLeads variant_leads = [a; b] /\
    spec_identity_key a = spec_identity_key b.
Proof. eexists _, _. split; vm_compute; reflexivity. Qed.

End Deduplication.

(* ===================================================================== *)
(** * Engagement events (webhooks/email-webhooks.js) *)
(* ===================================================================== *)

Section Projections.
Import Js Store EmailWebhooks.
Implicit Types (db : Db) (now : Z) (leadId : option string).

Lemma leads_update_message id u db : leads (update_message id u db) = leads db.
Proof. unfold update_message. by destruct (has_keys u). Qed.


Lemma leads_updateLeadStatus now id st notes db :
  leads (updateLeadStatus now (Some id) st notes db) =
  alter (with_status st now) id (leads db).
Proof.
  unfold updateLeadStatus. destruct notes as [note|]; [|done].
  by destruct (String.eqb note "").
Qed.

Lemma leads_updateLeadStatus_null now st notes db :
  leads (updateLeadStatus now None st notes db) = leads db.
Proof.
  unfold updateLeadStatus. destruct notes as [note|]; [|done].
  by destruct (String.eqb note "").
Qed.


Lemma messages_updateLeadStatus now leadId st notes db :
  messages (updateLeadStatus now leadId st notes db) = messages db.
Proof.
  unfold updateLeadStatus. destruct leadId, notes as [note|]; try done;
  by destruct (String.eqb note "").
Qed.

Lemma leads_incrementEngagementScore now id points db :
  leads (incrementEngagementScore now (Some id) points db) =
  match leads db !! id with
  | Some lead =>
      alter (with_score (Z.min (score_or_0 (lead_score lead) + points) 100) now)
        id (leads db)
  | None => leads db
  end.
Proof. unfold incrementEngagementScore. simpl. by destruct (leads db !! id). Qed.

Lemma leads_incrementEngagementScore_null now points db :
  leads (incrementEngagementScore now None points db) = leads db.
Proof. reflexivity. Qed.


Lemma messages_incrementEngagementScore now leadId points db :
  messages (incrementEngagementScore now leadId points db) = messages db.
Proof.
  unfold incrementEngagementScore. destruct (lead_by_id leadId db); [|done].
  by destruct leadId.
Qed.

Lemma opens_of_messages leadId db db' :
  messages db' = messages db -> opens_of leadId db' = opens_of leadId db.
Proof. intros Hm. unfold opens_of, messages_of_lead. by rewrite Hm. Qed.

Lemma single_fmap {A B} (f : A -> B) (rows : list A) :
  single (f <$> rows) = f <$> single rows.
Proof. by destruct rows as [|? [|? ?]]. Qed.

Lemma filter_fmap_stable {A} (P : A -> Prop) `{!forall x, Decision (P x)}
    (f : A -> A) (rows : list A) :
  (forall x, P (f x) <-> P x) -> filter P (f <$> rows) = f <$> filter P rows.
Proof.
  intros Hf. induction rows as [|x rows IH]; [done|].
  rewrite fmap_cons, !filter_cons, IH.
  destruct (decide (P (f x))) as [Hy|Hn], (decide (P x)) as [Hy'|Hn']; try done.
  - exfalso. apply Hn'. by apply Hf.
  - exfalso. apply Hn. by apply Hf.
Qed.

Lemma resolve_update_message x id u db :
  msg_key <$> message_by_transport_id x (update_message id u db) =
  msg_key <$> message_by_transport_id x db.
Proof.
  unfold update_message, message_by_transport_id.
  destruct (has_keys u); [|done]. simpl.
  rewrite filter_fmap_stable, single_fmap.
  - destruct (single _) as [m|]; [|done]. simpl.
    by destruct (String.eqb (m_id m) id).
  - intros m. by destruct (String.eqb (m_id m) id).
Qed.

Lemma resolve_messages x db db' :
  messages db' = messages db ->
  message_by_transport_id x db' = message_by_transport_id x db.
Proof. intros Hm. unfold message_by_transport_id. by rewrite Hm. Qed.

(** The leads table after [handleEmailOpened]. *)
Lemma leads_handleEmailOpened now id db :
  leads (handleEmailOpened now (Some id) db) =
  let scored := leads (incrementEngagementScore now (Some id) 5 db) in
  if Nat.eqb (length (opens_of (Some id) db)) 1
  then alter (with_status StQualified now) id scored
  else scored.
Proof.
  unfold handleEmailOpened.
  rewrite (opens_of_messages _ db) by apply messages_incrementEngagementScore.
  by destruct (Nat.eqb _ _).
Qed.

(** The leads table after [handleEmailClicked]. *)
Lemma leads_handleEmailClicked now id url db :
  leads (handleEmailClicked now (Some id) url db) =
  alter (with_status StQualified now) id
    (leads (incrementEngagementScore now (Some id) 10 db)).
Proof. reflexivity. Qed.

End Projections.

(** Decide the [switch] on a known event type. *)
Ltac eval_kind :=
  repeat match goal with
         | |- context [String.eqb ?a ?b] =>
             let v := eval vm_compute in (String.eqb a b) in
             change (String.eqb a b) with v
         end;
  cbv beta iota zeta delta [orb andb negb].

Section Lifecycle.
Import Js Store EmailWebhooks.
Implicit Types (db : Db) (now : Z) (event : SendGridEvent).

Lemma example_resolves status score :
  resolves_to "sg-1" "L1" (example_db status score).
Proof. exists example_message. split; reflexivity. Qed.

(** C2, as the code has it.  [updateLeadStatus] writes the status it is
    given whatever the current one is: for an event whose message
    resolves to a lead, "delivered" leaves the lead contacted, "click"
    leaves it qualified, and "bounce", "dropped" and "spam_report" leave
    it lost, from any earlier status. *)
Theorem sendgrid_status_unconditional now event db id lead :
  resolves_to (sg_message_id event) id db ->
  leads db !! id = Some lead ->
  let after := lead_status <$> leads (processSendGridEvent now event db) !! id in
  (sg_event event = "delivered" -> is_Some (toISOString (sg_timestamp event)) ->
   after = Some StContacted) /\
  (sg_event event = "click" -> is_Some (toISOString (sg_timestamp event)) ->
   after = Some StQualified) /\
  (sg_event event ∈ ["bounce"; "dropped"; "spam_report"] -> after = Some StLost).
Proof.
  intros (message & Hmsg & Hlead) Hrow after. subst after.
  unfold processSendGridEvent. rewrite Hmsg, Hlead.
  split; [|split].
  - intros -> [t ->]. eval_kind.
    rewrite leads_update_message, leads_updateLeadStatus, lookup_alter_eq, Hrow.
    done.
  - intros -> [t ->]. eval_kind.
    rewrite leads_update_message, leads_handleEmailClicked, lookup_alter_eq.
    rewrite leads_incrementEngagementScore, Hrow, lookup_alter_eq, Hrow. done.
  - intros Hkind. repeat (apply elem_of_cons in Hkind as [->|Hkind]);
      try (by apply elem_of_nil in Hkind); eval_kind;
      rewrite leads_update_message, leads_updateLeadStatus, lookup_alter_eq, Hrow;
      done.
Qed.

Lemma sendgrid_status_unconditional_witness :
  lead_status <$> leads (processSendGridEvent 5 (example_event "delivered")
                           (example_db StLost (Some 40))) !! "L1"
  = Some StContacted.
Proof.
  apply (sendgrid_status_unconditional 5 (example_event "delivered")
           (example_db StLost (Some 40)) "L1" (example_lead StLost (Some 40))).
  - apply example_resolves.
  - reflexivity.
  - reflexivity.
  - simpl. eauto.
Defined.

(** C2, as the specification words it, fails: a qualified lead whose
    message is reported delivered is moved back to contacted. *)
Lemma delivered_moves_qualified_lead_back :
  lead_state (example_db StQualified (Some 85)) "L1" = Some (StQualified, Some 85) /\
  lead_state (processSendGridEvent 5 (example_event "delivered")
                (example_db StQualified (Some 85))) "L1"
  = Some (StContacted, Some 85).
Proof. split; vm_compute; reflexivity. Qed.

End Lifecycle.

Section Replay.
Import Js Store EmailWebhooks.
Implicit Types (db : Db) (now : Z) (event : SendGridEvent).

Lemma leads_updateLeadStatus_written now st notes m db :
  leads (updateLeadStatus now (m_lead_id m) st notes db) =
  written (Some st) now (Some m) (leads db).
Proof.
  unfold written. simpl. destruct (m_lead_id m).
  - apply leads_updateLeadStatus.
  - apply leads_updateLeadStatus_null.
Qed.

(** An event that is neither "open" nor "click" is at most one status
    write, and leaves the resolution of every transport id as it was. *)
Lemma sendgrid_plain_event event :
  sg_event event <> "open" -> sg_event event <> "click" ->
  exists write : option LeadStatus, forall now db,
    leads (processSendGridEvent now event db) =
      written write now (message_by_transport_id (sg_message_id event) db) (leads db) /\
    forall x, msg_key <$> message_by_transport_id x (processSendGridEvent now event db) =
              msg_key <$> message_by_transport_id x db.
Proof.
  intros Hopen Hclick. unfold processSendGridEvent.
  apply String.eqb_neq in Hopen, Hclick. rewrite Hopen, Hclick.
  destruct (String.eqb (sg_event event) "delivered");
    [destruct (toISOString (sg_timestamp event)) as [t|];
       [exists (Some StContacted)|exists None]
    |destruct (String.eqb (sg_event event) "bounce" || String.eqb (sg_event event) "dropped");
       [exists (Some StLost)
       |destruct (String.eqb (sg_event event) "spam_report");
          [exists (Some StLost)|exists None]]];
    intros now db;
    (destruct (message_by_transport_id (sg_message_id event) db) as [m|] eqn:Hm;
       [|by rewrite ?Hm]);
    cbv beta iota zeta.
  all: rewrite ?leads_update_message, ?leads_updateLeadStatus_written.
  all: split; [try done|].
  all: intros x; rewrite ?resolve_update_message; try done.
  all: apply (f_equal (fmap msg_key)), resolve_messages, messages_updateLeadStatus.
Qed.

Lemma lead_state_written write now1 now2 m table id :
  (fun row => (lead_status row, lead_score row)) <$>
    written write now2 m (written write now1 m table) !! id =
  (fun row => (lead_status row, lead_score row)) <$> written write now1 m table !! id.
Proof.
  unfold written. destruct write as [st|], (m ≫= m_lead_id) as [id'|]; try done.
  destruct (decide (id' = id)) as [->|Hne].
  - rewrite !lookup_alter_eq. by destruct (table !! id).
  - by rewrite !lookup_alter_ne.
Qed.

Lemma written_msg_key write now m1 m2 table :
  msg_key <$> m1 = msg_key <$> m2 -> written write now m1 table = written write now m2 table.
Proof.
  intros Hkey. unfold written.
  replace (m1 ≫= m_lead_id) with (m2 ≫= m_lead_id); [done|].
  destruct m1, m2; simpl in *; try done.
  unfold msg_key in Hkey. congruence.
Qed.

Lemma messages_handleEmailClicked now leadId url db :
  messages (handleEmailClicked now leadId url db) = messages db.
Proof.
  unfold handleEmailClicked, cancelScheduledFollowUps, set_jobs. cbn [messages].
  rewrite messages_updateLeadStatus.
  unfold recordLeadActivity, set_lead_notes. cbn [messages].
  apply messages_incrementEngagementScore.
Qed.

Lemma messages_handleEmailOpened now leadId db :
  messages (handleEmailOpened now leadId db) = messages db.
Proof.
  unfold handleEmailOpened.
  destruct (Nat.eqb _ _); unfold addJob, set_jobs; cbn [messages];
    rewrite ?messages_updateLeadStatus;
    unfold recordLeadActivity, set_lead_notes; cbn [messages];
    apply messages_incrementEngagementScore.
Qed.

Lemma resolves_to_preserved x id db db' :
  msg_key <$> message_by_transport_id x db' = msg_key <$> message_by_transport_id x db ->
  resolves_to x id db -> resolves_to x id db'.
Proof.
  intros Hkey (m & Hm & Hlead). rewrite Hm in Hkey. unfold resolves_to.
  destruct (message_by_transport_id x db') as [m'|]; [|done].
  exists m'. split; [done|]. unfold msg_key in Hkey. simpl in Hkey. congruence.
Qed.

(** One "click": the lead is qualified and ten points richer, and the
    event resolves as before. *)
Lemma sendgrid_click_step now event db id lead :
  resolves_to (sg_message_id event) id db ->
  leads db !! id = Some lead ->
  is_Some (toISOString (sg_timestamp event)) ->
  sg_event event = "click" ->
  lead_state (processSendGridEvent now event db) id =
    Some (StQualified, Some (Z.min (score_or_0 (lead_score lead) + 10) 100)) /\
  resolves_to (sg_message_id event) id (processSendGridEvent now event db).
Proof.
  intros Hres Hrow [t Ht] Hkind. pose proof Hres as (m & Hm & Hlead).
  unfold processSendGridEvent. rewrite Hm, Hkind, Ht, Hlead. eval_kind.
  split.
  - unfold lead_state.
    rewrite leads_update_message, leads_handleEmailClicked, lookup_alter_eq.
    rewrite leads_incrementEngagementScore, Hrow, lookup_alter_eq, Hrow. done.
  - eapply resolves_to_preserved; [|done].
    rewrite resolve_update_message.
    apply (f_equal (fmap msg_key)), resolve_messages, messages_handleEmailClicked.
Qed.

(** One "open": the lead is five points richer, and the event resolves
    as before. *)
Lemma sendgrid_open_step now event db id lead :
  resolves_to (sg_message_id event) id db ->
  leads db !! id = Some lead ->
  is_Some (toISOString (sg_timestamp event)) ->
  sg_event event = "open" ->
  snd <$> lead_state (processSendGridEvent now event db) id =
    Some (Some (Z.min (score_or_0 (lead_score lead) + 5) 100)) /\
  resolves_to (sg_message_id event) id (processSendGridEvent now event db).
Proof.
  intros Hres Hrow [t Ht] Hkind. pose proof Hres as (m & Hm & Hlead).
  unfold processSendGridEvent. rewrite Hm, Hkind, Ht, Hlead. eval_kind.
  split.
  - unfold lead_state.
    rewrite leads_update_message, leads_handleEmailOpened. cbv zeta.
    rewrite leads_incrementEngagementScore, Hrow.
    destruct (Nat.eqb _ _); rewrite ?lookup_alter_eq, Hrow; done.
  - eapply resolves_to_preserved; [|done].
    rewrite resolve_update_message.
    apply (f_equal (fmap msg_key)), resolve_messages, messages_handleEmailOpened.
Qed.

Lemma lead_state_Some db id st score :
  lead_state db id = Some (st, score) ->
  exists row, leads db !! id = Some row /\ lead_status row = st /\ lead_score row = score.
Proof.
  unfold lead_state. destruct (leads db !! id) as [row|]; [|done].
  intros [= <- <-]. eauto.
Qed.

Lemma lead_score_Some db id score :
  snd <$> lead_state db id = Some score ->
  exists row, leads db !! id = Some row /\ lead_score row = score.
Proof.
  unfold lead_state. destruct (leads db !! id) as [row|]; [|done].
  intros [= <-]. eauto.
Qed.

(** C3, as the code has it.  The handlers keep no record of the events
    they have seen.  An event that is neither "open" nor "click"
    ("delivered", "bounce", "dropped", "spam_report", or one the switch
    ignores) leaves every lead, when it is processed a second time, with
    the status and score the first processing left.  A "click" replayed
    leaves the status qualified and adds ten points again, an "open"
    replayed adds five points again, each up to the cap of 100. *)
Theorem sendgrid_replay now1 now2 event db :
  let once := processSendGridEvent now1 event db in
  let twice := processSendGridEvent now2 event once in
  (sg_event event <> "open" -> sg_event event <> "click" ->
   forall id, lead_state twice id = lead_state once id) /\
  (forall id lead,
     resolves_to (sg_message_id event) id db ->
     leads db !! id = Some lead ->
     is_Some (toISOString (sg_timestamp event)) ->
     let s := score_or_0 (lead_score lead) in
     (sg_event event = "click" ->
      lead_state once id = Some (StQualified, Some (Z.min (s + 10) 100)) /\
      lead_state twice id = Some (StQualified, Some (Z.min (Z.min (s + 10) 100 + 10) 100))) /\
     (sg_event event = "open" ->
      snd <$> lead_state once id = Some (Some (Z.min (s + 5) 100)) /\
      snd <$> lead_state twice id = Some (Some (Z.min (Z.min (s + 5) 100 + 5) 100)))).
Proof.
  intros once twice. subst once twice. split.
  - intros Hopen Hclick id.
    destruct (sendgrid_plain_event event Hopen Hclick) as [write Hplain].
    unfold lead_state.
    destruct (Hplain now2 (processSendGridEvent now1 event db)) as [-> _].
    destruct (Hplain now1 db) as [-> Hkey].
    rewrite (written_msg_key _ _ _ _ _ (Hkey (sg_message_id event))).
    apply lead_state_written.
  - intros id lead Hres Hrow Hts s. split; intros Hkind.
    + destruct (sendgrid_click_step now1 event db id lead) as [Hst1 Hres1]; try done.
      split; [done|].
      destruct (lead_state_Some _ _ _ _ Hst1) as (row & Hrow1 & _ & Hscore).
      destruct (sendgrid_click_step now2 event _ id row Hres1 Hrow1 Hts Hkind) as [-> _].
      by rewrite Hscore.
    + destruct (sendgrid_open_step now1 event db id lead) as [Hst1 Hres1]; try done.
      split; [done|].
      destruct (lead_score_Some _ _ _ Hst1) as (row & Hrow1 & Hscore).
      destruct (sendgrid_open_step now2 event _ id row Hres1 Hrow1 Hts Hkind) as [-> _].
      by rewrite Hscore.
Qed.

Lemma sendgrid_replay_witness :
  let once := processSendGridEvent 5 (example_event "click") (example_db StContacted (Some 50)) in
  let twice := processSendGridEvent 9 (example_event "click") once in
  lead_state once "L1" = Some (StQualified, Some 60) /\
  lead_state twice "L1" = Some (StQualified, Some 70).
Proof.
  destruct (sendgrid_replay 5 9 (example_event "click")
              (example_db StContacted (Some 50))) as [_ Hreplay].
  apply (Hreplay "L1" (example_lead StContacted (Some 50))).
  - apply example_resolves.
  - reflexivity.
  - simpl. eauto.
  - reflexivity.
Defined.

(** C3, as the specification words it, fails: the same "click" applied
    twice leaves a score other than the one it leaves applied once. *)
Lemma replayed_click_adds_again :
  let once := processSendGridEvent 5 (example_event "click") (example_db StContacted (Some 50)) in
  let twice := processSendGridEvent 9 (example_event "click") once in
  lead_state once "L1" = Some (StQualified, Some 60) /\
  lead_state twice "L1" = Some (StQualified, Some 70) /\
  lead_state twice "L1" <> lead_state once "L1".
Proof. vm_compute. repeat split; congruence. Qed.

End Replay.

Section Bounce.
Import Js Store EmailWebhooks FollowupProcessor.
Implicit Types (db : Db) (now : Z).





End Bounce.

Section FirstOpen.
Import Js Store EmailWebhooks.
Implicit Types (db : Db) (now : Z) (event : SendGridEvent).




(** The same event replayed: the second and the third processing both
    find one opened message, so each qualifies the lead and queues an
    enrichment job. *)
Example open_replayed_retriggers :
  let db0 := example_db StContacted (Some 50) in
  let db1 := processSendGridEvent 5 (example_event "open") db0 in
  let db2 := processSendGridEvent 6 (example_event "open") db1 in
  let db3 := processSendGridEvent 7 (example_event "open") db2 in
  lead_state db1 "L1" = Some (StContacted, Some 55) /\
  lead_state db2 "L1" = Some (StQualified, Some 60) /\
  lead_state db3 "L1" = Some (StQualified, Some 65) /\
  jobs db1 = jobs db0 /\
  jobs db2 = jobs db0 ++ [enrichment_job (Some "L1")] /\
  jobs db3 = jobs db0 ++ [enrichment_job (Some "L1"); enrichment_job (Some "L1")].
Proof. vm_compute. repeat split; reflexivity. Qed.

End FirstOpen.

(* ===================================================================== *)
(** * The scoring processor (workers/processors/scoring-processor.js) *)
(* ===================================================================== *)

Section Campaign.
Import Js Store ScoringProcessor.
Context `{Runtime}.
Implicit Types (db : Db) (now : Z) (env : Env.Env).

Lemma jobs_scheduleFollowUpSequence leadId lead db :
  jobs (scheduleFollowUpSequence leadId lead db) =
  jobs db ++ drop 1 (campaign_jobs leadId lead).
Proof.
  unfold scheduleFollowUpSequence, addJob, set_jobs. simpl.
  by rewrite <- !app_assoc.
Qed.

Lemma leads_scheduleFollowUpSequence leadId lead db :
  leads (scheduleFollowUpSequence leadId lead db) = leads db.
Proof. reflexivity. Qed.

Lemma triggerHotLeadCampaign_effect env leadId lead scoreData db :
  let fires :=
    negb (below_threshold (LeadScorer.totalScore scoreData) (Env.hotLeadThreshold env)) &&
    Nat.eqb (length (messages_of_lead (Some leadId) db)) 0 in
  let db' := triggerHotLeadCampaign env leadId lead scoreData db in
  leads db' = leads db /\ messages db' = messages db /\
  jobs db' = if fires then jobs db ++ campaign_jobs leadId lead else jobs db.
Proof.
  unfold triggerHotLeadCampaign.
  destruct (below_threshold _ _); [done|].
  destruct (messages_of_lead (Some leadId) db) as [|m ms]; [|done].
  cbn [take length Nat.ltb Nat.leb negb andb Nat.eqb].
  repeat split.
  rewrite jobs_scheduleFollowUpSequence. unfold addJob, set_jobs. cbn [jobs].
  by rewrite <- app_assoc.
Qed.

(** The effect of [scoreSingleLead] on the tables. *)
Lemma scoreSingleLead_effect env now leadId db r db' :
  scoreSingleLead env now leadId db = Some (r, db') ->
  exists lead scoreData,
    leads db !! leadId = Some lead /\
    LeadScorer.calculateScore now (Obj (lead_data lead)) = Some scoreData /\
    r_score r = LeadScorer.totalScore scoreData /\
    leads db' = alter (with_scoreData scoreData now) leadId (leads db) /\
    messages db' = messages db /\
    jobs db' = if campaign_fires env (r_score r) leadId db
               then jobs db ++ campaign_jobs leadId lead else jobs db.
Proof.
  unfold scoreSingleLead, lead_by_id. cbn [mbind option_bind].
  destruct (leads db !! leadId) as [lead|] eqn:Hrow; [|done]. cbn [mbind option_bind].
  destruct (LeadScorer.calculateScore now (Obj (lead_data lead)))
    as [scoreData|] eqn:Hscore; [|done].
  cbn [mbind option_bind]. cbv zeta. intros [= <- <-]. exists lead, scoreData.
  cbn [r_score]. do 3 (split; [done|]). unfold campaign_fires.
  pose proof (triggerHotLeadCampaign_effect env leadId lead scoreData
                (update_lead (Some leadId) (with_scoreData scoreData now) db))
    as (Hl & Hm & Hj).
  unfold update_lead in Hl, Hm, Hj.
  destruct (80 <=? LeadScorer.totalScore scoreData); [|done].
  rewrite Hl, Hm, Hj. done.
Qed.


End Campaign.

Section CampaignExamples.
Import Js Store ScoringProcessor.


(** With the default threshold the campaign of a hot lead is queued
    once, and not at all when the lead already has a message. *)
Example hot_lead_campaign :
  (snd <$> scoreSingleLead (H := LeadScorer.example_runtime) Env.default_env 5 "L1"
             (set_messages (fun _ => []) hot_db)) ≫= (fun db' => Some (jobs db'))
    = Some (campaign_jobs "L1" hot_lead) /\
  (snd <$> scoreSingleLead (H := LeadScorer.example_runtime) Env.default_env 5 "L1" hot_db)
    ≫= (fun db' => Some (jobs db'))
    = Some [].
Proof. split; vm_compute; reflexivity. Qed.

End CampaignExamples.

Section SharedScoreField.
Import Js Store EmailWebhooks ScoringProcessor.
Context `{Runtime}.
Implicit Types (db : Db) (now : Z).



End SharedScoreField.

Section SharedScoreFieldExamples.
Import Js Store EmailWebhooks ScoringProcessor.


(** A lead scored 92 by the engine and then opened once reads 97. *)
Example scored_then_opened :
  (snd <$> scoreSingleLead (H := LeadScorer.example_runtime) Env.default_env 5 "L1" hot_db)
    ≫= (fun db' =>
          Some (lead_score <$> leads db' !! "L1",
                lead_score <$> leads (processSendGridEvent 9 (example_event "open") db') !! "L1"))
  = Some (Some (Some 92), Some (Some 97)).
Proof. vm_compute. reflexivity. Qed.

End SharedScoreFieldExamples.

(* ===================================================================== *)
(** * The daily trigger (automation/cron-scheduler.js) *)
(* ===================================================================== *)

Section DailyTrigger.
Import Js Store CronScheduler.
Implicit Types (db : Db) (now : Z) (env : Env.Env).




End DailyTrigger.

(* ===================================================================== *)
(** * The scoring engine (scoring/lead-scorer.js) *)
(* ===================================================================== *)

(** Run a component function backwards from [... = Some s]: name the
    result of every property read, and split on every test. *)
Ltac crunch_step H :=
  match type of H with
  | mbind _ ?o = Some _ =>
      let v := fresh "v" in
      destruct o as [v|] eqn:?; cbn [mbind option_bind] in H; [|discriminate H]
  | (let '(_, _) := ?p in _) = Some _ => destruct p
  | (if ?c then _ else _) = Some _ => destruct c
  | Some _ = Some _ => simplify_eq
  end.

Ltac crunch H := cbv zeta in H; repeat (crunch_step H; cbv zeta in H).

Ltac split_tests :=
  repeat match goal with
         | |- context [LeadScorer.add_if ?c _ _] =>
             destruct c; cbn [LeadScorer.add_if]
         | |- context [if ?c then _ else _] => destruct c
         end.

Section ComponentBounds.
Import Js LeadScorer.
Context `{Runtime}.
Implicit Types (lead : Val) (s : Z).

Lemma scoreWebsiteQuality_on_grid lead s :
  scoreWebsiteQuality lead = Some s -> on_grid s = true.
Proof.
  unfold scoreWebsiteQuality, block. intros Hs. crunch Hs; [reflexivity|].
  split_tests; reflexivity.
Qed.

Lemma analyzeIndustryKeywords_values lead seoData s :
  analyzeIndustryKeywords lead seoData = Some s -> s = 30 \/ s = 15.
Proof.
  unfold analyzeIndustryKeywords. intros Hs. crunch Hs; auto.
Qed.

Lemma scoreSEORanking_on_grid lead s :
  scoreSEORanking lead = Some s -> on_grid s = true.
Proof.
  unfold scoreSEORanking, block. intros Hs. crunch Hs; [reflexivity|].
  match goal with
  | Hk : analyzeIndustryKeywords _ _ = Some _ |- _ =>
      destruct (analyzeIndustryKeywords_values _ _ _ Hk) as [-> | ->]
  end; split_tests; reflexivity.
Qed.

Lemma scoreAdPresence_on_grid lead s :
  scoreAdPresence lead = Some s -> on_grid s = true.
Proof.
  unfold scoreAdPresence, block. intros Hs. crunch Hs.
  split_tests; reflexivity.
Qed.

Lemma scoreReviews_on_grid lead s :
  scoreReviews lead = Some s -> on_grid s = true.
Proof.
  unfold scoreReviews. intros Hs. crunch Hs.
  split_tests; reflexivity.
Qed.

(** Each platform adds 5, 10 or 15 points. *)
Lemma forEach_platform_bounds socialPresence ps score missing score' missing' :
  forEach_platform socialPresence (score, missing) ps = Some (score', missing') ->
  score + 5 * Z.of_nat (length ps) <= score' <= score + 15 * Z.of_nat (length ps) /\
  (score' - score) mod 5 = 0.
Proof.
  revert score missing. induction ps as [|p ps IH]; intros score missing Hs.
  - injection Hs as <- <-. rewrite Z.sub_diag. cbn [length Z.of_nat].
    split; [lia|reflexivity].
  - cbn [forEach_platform] in Hs.
    destruct (platform_step socialPresence (score, missing) p) as [[score1 missing1]|] eqn:Hstep;
      cbn [mbind option_bind] in Hs; [|discriminate].
    apply IH in Hs as [Hrange Hmod].
    assert (score1 = score + 5 \/ score1 = score + 10 \/ score1 = score + 15) as Hd.
    { unfold platform_step in Hstep. crunch Hstep; auto. }
    rewrite length_cons, Nat2Z.inj_succ.
    split; [lia|].
    replace (score' - score) with ((score' - score1) + (score1 - score)) by lia.
    destruct Hd as [-> | [-> | ->]];
      rewrite Z.add_mod, Hmod by lia;
      match goal with
      | |- context [(?a + ?k - ?a) mod 5] => replace (a + k - a) with k by lia
      end; reflexivity.
Qed.

Lemma scoreSocialPresence_on_grid lead s :
  scoreSocialPresence lead = Some s -> on_grid s = true.
Proof.
  unfold scoreSocialPresence, block. intros Hs. crunch Hs.
  match goal with
  | Hf : forEach_platform _ _ _ = Some _ |- _ =>
      apply forEach_platform_bounds in Hf as [Hrange Hmod]
  end.
  cbn [length platforms] in Hrange. rewrite Z.sub_0_r in Hmod.
  match goal with
  | |- context [if ?c then _ else _] => destruct c
  end; [reflexivity|].
  rewrite Z.min_l by lia. unfold on_grid.
  rewrite Hmod. apply andb_true_intro; split; [apply andb_true_intro; split|];
    [apply Z.leb_le; lia|apply Z.leb_le; lia|reflexivity].
Qed.

Lemma scoreCompanySize_on_grid lead s :
  scoreCompanySize lead = Some s -> on_grid s = true.
Proof.
  unfold scoreCompanySize, block. intros Hs. crunch Hs.
  split_tests; reflexivity.
Qed.

Lemma scoreMarketCompetitiveness_on_grid lead s :
  scoreMarketCompetitiveness lead = Some s -> on_grid s = true.
Proof.
  unfold scoreMarketCompetitiveness, isMetroArea. intros Hs. crunch Hs.
  split_tests; reflexivity.
Qed.

Lemma computeScores_on_grid lead scores :
  computeScores lead = Some scores ->
  Forall (fun s => on_grid s = true) (scores_list scores).
Proof.
  unfold computeScores. intros Hs.
  destruct (scoreWebsiteQuality lead) as [s1|] eqn:H1; [|discriminate].
  destruct (scoreSEORanking lead) as [s2|] eqn:H2; [|discriminate].
  destruct (scoreAdPresence lead) as [s3|] eqn:H3; [|discriminate].
  destruct (scoreReviews lead) as [s4|] eqn:H4; [|discriminate].
  destruct (scoreSocialPresence lead) as [s5|] eqn:H5; [|discriminate].
  destruct (scoreCompanySize lead) as [s6|] eqn:H6; [|discriminate].
  destruct (scoreMarketCompetitiveness lead) as [s7|] eqn:H7; [|discriminate].
  injection Hs as <-. unfold scores_list. cbn.
  repeat constructor;
    eauto using scoreWebsiteQuality_on_grid, scoreSEORanking_on_grid,
      scoreAdPresence_on_grid, scoreReviews_on_grid, scoreSocialPresence_on_grid,
      scoreCompanySize_on_grid, scoreMarketCompetitiveness_on_grid.
Qed.

End ComponentBounds.

Section WeightedTotal.
Import Js LeadScorer.

Lemma sf_eqb_eq (x y : spec_float) : sf_eqb x y = true -> x = y.
Proof.
  destruct x as [a|a| |a m e], y as [b|b| |b m' e']; simpl; try discriminate.
  - intros Hb. by apply Bool.eqb_prop in Hb as ->.
  - intros Hb. by apply Bool.eqb_prop in Hb as ->.
  - done.
  - intros Hb. apply andb_prop in Hb as [Hb He]. apply andb_prop in Hb as [Hs Hm].
    apply Bool.eqb_prop in Hs as ->. apply Pos.eqb_eq in Hm as ->.
    by apply Z.eqb_eq in He as ->.
Qed.

Lemma covered_sound (ys xs : list spec_float) :
  covered ys xs = true -> forall x, x ∈ xs -> x ∈ ys.
Proof.
  revert xs. induction ys as [|y ys IH]; intros xs.
  - destruct xs; [|discriminate]. intros _ x Hx. by apply elem_of_nil in Hx.
  - induction xs as [|x' xs IHxs]; intros Hc x Hx.
    + by apply elem_of_nil in Hx.
    + cbn [covered] in Hc. destruct (sf_eqb x' y) eqn:Heq.
      * apply sf_eqb_eq in Heq as ->.
        apply elem_of_cons in Hx as [->|Hx]; [left|by apply IHxs].
      * right. by apply (IH (x' :: xs)).
Qed.

Lemma stage_sound (w : Z) (prev next : list spec_float) :
  stage_ok w prev next = true ->
  forall t s, t ∈ prev -> s ∈ grid -> add_weighted t (s, w) ∈ next.
Proof.
  unfold stage_ok. intros Hok t s Ht Hs.
  rewrite forallb_forall in Hok.
  apply (covered_sound next (map (fun t => fadd t (fmul (fdiv (ofZ s) (ofZ 100)) (ofZ w))) prev)).
  - apply Hok. apply list_elem_of_In. unfold terms.
    by apply (list_elem_of_fmap_2 (fun s => fmul (fdiv (ofZ s) (ofZ 100)) (ofZ w))).
  - by apply (list_elem_of_fmap_2 (fun t => fadd t (fmul (fdiv (ofZ s) (ofZ 100)) (ofZ w)))).
Qed.

Lemma stages_ok :
  stage_ok 25 totals_0 totals_1 = true /\
  stage_ok 20 totals_1 totals_2 = true /\
  stage_ok 15 totals_2 totals_3 = true /\
  stage_ok 15 totals_3 totals_4 = true /\
  stage_ok 10 totals_4 totals_5 = true /\
  stage_ok 10 totals_5 totals_6 = true /\
  stage_ok 5 totals_6 totals_7 = true.
Proof. repeat split; vm_compute; reflexivity. Qed.

Lemma on_grid_elem (s : Z) : on_grid s = true -> s ∈ grid.
Proof.
  unfold on_grid. intros Hs.
  apply andb_prop in Hs as [Hs Hmod]. apply andb_prop in Hs as [Hlo Hhi].
  apply Z.leb_le in Hlo, Hhi. apply Z.eqb_eq in Hmod.
  assert (s = 5 * (s / 5)) as -> by (rewrite (Z.div_mod s 5) at 1; lia).
  assert (0 <= s / 5 <= 20) as Hq by (split; [apply Z.div_pos|apply Z.div_le_upper_bound]; lia).
  assert (Z.to_nat (s / 5) < 21)%nat as Hn by lia.
  replace (s / 5) with (Z.of_nat (Z.to_nat (s / 5))) by lia.
  set (n := Z.to_nat (s / 5)) in *. clearbody n. clear -Hn.
  do 21 (destruct n as [|n]; [vm_compute; set_solver|]). lia.
Qed.

Lemma on_grid_range (s : Z) : on_grid s = true -> 0 <= s <= 100.
Proof.
  unfold on_grid. intros Hs.
  apply andb_prop in Hs as [Hs _]. apply andb_prop in Hs as [Hlo Hhi]. lia.
Qed.

(** The accumulator of the [reduce] ends in [totals_7]. *)
Lemma weightedTotal_reach (scores : ComponentScores) :
  Forall (fun s => on_grid s = true) (scores_list scores) ->
  weightedTotal scores ∈ totals_7.
Proof.
  destruct scores as [s1 s2 s3 s4 s5 s6 s7]. intros Hall.
  unfold scores_list in Hall.
  cbn [websiteQuality seoRanking adPresence reviewScore socialPresence companySize
       marketCompetitiveness] in Hall.
  repeat match goal with
         | Hf : Forall _ (_ :: _) |- _ =>
             apply Forall_cons in Hf as [?%on_grid_elem Hf]
         end.
  destruct stages_ok as (K1 & K2 & K3 & K4 & K5 & K6 & K7).
  unfold weightedTotal, scores_list, weights_list, weights. cbn [zip zip_with fold_left
    websiteQuality seoRanking adPresence reviewScore socialPresence companySize
    marketCompetitiveness w_websiteQuality w_seoRanking w_adPresence w_reviewScore
    w_socialPresence w_companySize w_marketCompetitiveness].
  apply (stage_sound _ _ _ K7); [|done].
  apply (stage_sound _ _ _ K6); [|done].
  apply (stage_sound _ _ _ K5); [|done].
  apply (stage_sound _ _ _ K4); [|done].
  apply (stage_sound _ _ _ K3); [|done].
  apply (stage_sound _ _ _ K2); [|done].
  apply (stage_sound _ _ _ K1); [|done].
  by left.
Qed.

Lemma totals_7_round :
  forallb (fun t => (0 <=? Math_round t) && (Math_round t <=? 100)) totals_7 = true.
Proof. vm_compute. reflexivity. Qed.

Lemma weightedTotal_round (scores : ComponentScores) :
  Forall (fun s => on_grid s = true) (scores_list scores) ->
  0 <= Math_round (weightedTotal scores) <= 100.
Proof.
  intros Hall. pose proof totals_7_round as Hround.
  rewrite forallb_forall in Hround.
  specialize (Hround _ (proj1 (list_elem_of_In _ _) (weightedTotal_reach _ Hall))).
  apply andb_prop in Hround as [Hlo Hhi]. lia.
Qed.

End WeightedTotal.

Section ScoreReturns.
Import Js LeadScorer.
Context `{Runtime}.
Implicit Types (lead v : Val).

Lemma get_is_Some v k : v <> Undefined -> v <> Null -> is_Some (get v k).
Proof. destruct v; simpl; eauto; done. Qed.

Lemma truthy_not_nullish v : truthy v = true -> v <> Undefined /\ v <> Null.
Proof. by destruct v. Qed.

Lemma or_truthy a b : truthy b = true -> truthy (or a b) = true.
Proof. unfold or. by destruct (truthy a) eqn:Ha. Qed.

Lemma get_or_is_Some a b k : truthy b = true -> is_Some (get (or a b) k).
Proof.
  intros Hb. destruct (truthy_not_nullish (or a b) (or_truthy a b Hb)).
  by apply get_is_Some.
Qed.

Lemma block_is_Some lead snake camel dflt :
  is_lead lead -> truthy dflt = true ->
  exists v, block lead snake camel dflt = Some v /\ truthy v = true /\
            exists a b, get lead snake = Some a /\ get lead camel = Some b /\
                        v = or (or a b) dflt.
Proof.
  intros [Hu Hn] Hd. unfold block.
  destruct (get_is_Some lead snake Hu Hn) as [a Ha].
  destruct (get_is_Some lead camel Hu Hn) as [b Hb].
  rewrite Ha, Hb. cbn [mbind option_bind]. eexists. split; [done|].
  split; [by apply or_truthy|eauto].
Qed.

Lemma get_None_nullish v k : get v k = None -> v = Undefined \/ v = Null.
Proof. destruct v; simpl; auto; discriminate. Qed.

(** Name the result of every property read in the goal; a read can only
    fail on [undefined] and [null], which [lead] and a truthy value are
    not. *)
Ltac read_all Hlead :=
  repeat match goal with
         | |- context [get ?v ?k] =>
             let r := fresh "r" in
             let Hr := fresh "Hr" in
             destruct (get v k) as [r|] eqn:Hr;
             [cbn [mbind option_bind]
             |exfalso; apply get_None_nullish in Hr; destruct Hlead;
              destruct Hr; subst; simpl in *; congruence]
         end.

Lemma scoreWebsiteQuality_returns lead :
  is_lead lead -> is_Some (scoreWebsiteQuality lead).
Proof.
  intros Hlead. unfold scoreWebsiteQuality.
  destruct (block_is_Some lead "website_quality" "websiteQuality" (Obj []) Hlead eq_refl)
    as (wq & -> & Hwq & _).
  cbn [mbind option_bind]. read_all Hlead.
  destruct (_ && _); eauto.
Qed.

Lemma analyzeIndustryKeywords_returns lead seoData :
  is_lead_record lead -> truthy seoData = true ->
  is_Some (analyzeIndustryKeywords lead seoData).
Proof.
  intros [Hlead Htext] Hseo. unfold analyzeIndustryKeywords.
  destruct (get_is_Some lead "industry") as [industry Hindustry]; [apply Hlead..|].
  rewrite Hindustry. cbn [mbind option_bind].
  assert (text_or_null industry) as Htxt.
  { apply (Htext "industry"); [set_solver|done]. }
  destruct industry; try done; cbn [opt_toUpperCase mbind option_bind];
    (destruct (Nat.ltb _ _); [|eauto]);
    (destruct (get_is_Some seoData "industryKeywords") as [kws ->];
       [by apply truthy_not_nullish..|]);
    cbn [mbind option_bind];
    (destruct (negb (truthy kws)) eqn:Hk; [eauto|]);
    apply negb_false_iff in Hk;
    (destruct (get_is_Some kws "length") as [len ->];
       [by apply truthy_not_nullish..|]);
    cbn [mbind option_bind]; destruct (is_zero len); eauto.
Qed.

Lemma scoreSEORanking_returns lead :
  is_lead_record lead -> is_Some (scoreSEORanking lead).
Proof.
  intros Hrecord. pose proof Hrecord as [Hlead _]. unfold scoreSEORanking.
  destruct (block_is_Some lead "seo_data" "seoData" (Obj []) Hlead eq_refl)
    as (seoData & -> & Hseo & _).
  cbn [mbind option_bind]. read_all Hlead.
  destruct (negb _); [eauto|]. cbv zeta.
  destruct (analyzeIndustryKeywords_returns lead seoData Hrecord Hseo) as [kw ->].
  cbn [mbind option_bind]. eauto.
Qed.

Lemma scoreAdPresence_returns lead :
  is_lead lead -> is_Some (scoreAdPresence lead).
Proof.
  intros Hlead. unfold scoreAdPresence.
  destruct (block_is_Some lead "ad_presence" "adPresence" (Obj []) Hlead eq_refl)
    as (ad & -> & Had & _).
  cbn [mbind option_bind]. read_all Hlead. eauto.
Qed.

Lemma scoreReviews_returns lead :
  is_lead lead -> is_Some (scoreReviews lead).
Proof.
  intros Hlead. unfold scoreReviews. read_all Hlead. eauto.
Qed.

Lemma forEach_platform_returns socialPresence ps st :
  truthy socialPresence = true ->
  is_Some (forEach_platform socialPresence st ps).
Proof.
  intros Hsp. revert st. induction ps as [|p ps IH]; intros [score missing]; [by eexists|].
  cbn [forEach_platform].
  assert (is_Some (platform_step socialPresence (score, missing) p)) as [st' ->].
  { unfold platform_step.
    assert (is_lead socialPresence) as Hlead by (by apply truthy_not_nullish).
    read_all Hlead.
    destruct (negb (truthy r)) eqn:Hk; [eauto|]. apply negb_false_iff in Hk.
    read_all Hlead. destruct (negb (truthy _)); [eauto|]. read_all Hlead.
    destruct (_ || _); eauto. }
  cbn [mbind option_bind]. apply IH.
Qed.

Lemma scoreSocialPresence_returns lead :
  is_lead lead -> is_Some (scoreSocialPresence lead).
Proof.
  intros Hlead. unfold scoreSocialPresence.
  destruct (block_is_Some lead "social_presence" "socialPresence" (Obj []) Hlead eq_refl)
    as (sp & -> & Hsp & _).
  cbn [mbind option_bind].
  destruct (forEach_platform_returns sp platforms (0, 0) Hsp) as [[score missing] ->].
  cbn [mbind option_bind]. eauto.
Qed.

(** [a || b || 'literal'] over text columns is a string. *)
Lemma text_or_literal a b lit :
  text_or_null a -> text_or_null b -> exists s, or (or a b) (Str lit) = Str s.
Proof.
  intros Ha Hb. unfold or.
  destruct a, b; try done; simpl;
    repeat (match goal with
            | |- context [negb (String.eqb ?s "")] =>
                destruct (negb (String.eqb s "")); simpl
            end);
    eauto.
Qed.

Lemma scoreCompanySize_returns lead :
  is_lead_record lead -> is_Some (scoreCompanySize lead).
Proof.
  intros [Hlead Htext]. unfold scoreCompanySize.
  destruct (block_is_Some lead "estimated_size" "estimatedSize" (Str "Unknown") Hlead eq_refl)
    as (size & -> & _ & a & b & Ha & Hb & ->).
  cbn [mbind option_bind].
  destruct (text_or_literal a b "Unknown") as [s ->].
  { apply (Htext "estimated_size"); [set_solver|done]. }
  { apply (Htext "estimatedSize"); [set_solver|done]. }
  cbn [toLowerCase mbind option_bind]. read_all Hlead. eauto.
Qed.

Lemma scoreMarketCompetitiveness_returns lead :
  is_lead_record lead -> is_Some (scoreMarketCompetitiveness lead).
Proof.
  intros [Hlead Htext]. unfold scoreMarketCompetitiveness.
  destruct (get lead "address") as [a|] eqn:Ha;
    [|exfalso; apply get_None_nullish in Ha; destruct Hlead, Ha; congruence].
  destruct (get lead "location") as [b|] eqn:Hb;
    [|exfalso; apply get_None_nullish in Hb; destruct Hlead, Hb; congruence].
  cbn [mbind option_bind]. cbv zeta.
  destruct (text_or_literal a b "") as [s ->].
  { apply (Htext "address"); [set_solver|done]. }
  { apply (Htext "location"); [set_solver|done]. }
  unfold isMetroArea. cbn [toLowerCase mbind option_bind]. read_all Hlead. eauto.
Qed.

(** On a Lead Record the scorer raises nothing. *)
Lemma calculateScore_returns now lead :
  is_lead_record lead -> is_Some (calculateScore now lead).
Proof.
  intros Hrecord. pose proof Hrecord as [Hlead _]. unfold calculateScore, computeScores.
  destruct (get_is_Some lead "company_name") as [name ->]; [apply Hlead..|].
  destruct (scoreWebsiteQuality_returns lead Hlead) as [s1 ->].
  destruct (scoreSEORanking_returns lead Hrecord) as [s2 ->].
  destruct (scoreAdPresence_returns lead Hlead) as [s3 ->].
  destruct (scoreReviews_returns lead Hlead) as [s4 ->].
  destruct (scoreSocialPresence_returns lead Hlead) as [s5 ->].
  destruct (scoreCompanySize_returns lead Hrecord) as [s6 ->].
  destruct (scoreMarketCompetitiveness_returns lead Hrecord) as [s7 ->].
  cbn [mbind option_bind]. eauto.
Qed.

End ScoreReturns.

Section ScoreBounds.
Import Js LeadScorer.
Context `{Runtime}.


End ScoreBounds.


Section BatchScoring.
Import Js LeadScorer.

Lemma sort_insert_perm {A} (compare : A -> A -> Z) (x : A) (l : list A) :
  sort_insert compare x l ≡ₚ x :: l.
Proof.
  induction l as [|y l IH]; simpl; [done|].
  destruct (0 <? compare x y); [|done].
  rewrite IH. apply Permutation_swap.
Qed.

Lemma Array_sort_perm {A} (compare : A -> A -> Z) (l : list A) :
  Array_sort compare l ≡ₚ l.
Proof.
  induction l as [|x l IH]; simpl; [done|].
  by rewrite sort_insert_perm, IH.
Qed.



Context `{Runtime}.




End BatchScoring.


(* ===================================================================== *)
(** * Clicks and the follow-up sequence
      (webhooks/email-webhooks.js, workers/processors/followup-processor.js) *)
(* ===================================================================== *)

Section ClickCancels.
Import Js Store EmailWebhooks FollowupProcessor.








End ClickCancels.


Section EngagedLeads.
Import Js Store EmailWebhooks FollowupProcessor.

Lemma qualified_lead_is_skipped id db :
  lead_status <$> leads db !! id = Some StQualified ->
  forall now sequence industry,
    process now id sequence industry db = Some (Skipped "lead_replied", db).
Proof.
  intros Hq now sequence industry. unfold process, checkIfLeadReplied, lead_by_id.
  cbn [mbind option_bind].
  destruct (leads db !! id) as [lead|] eqn:Hl; [|done].
  injection Hq as Hq. cbn [mbind option_bind option_fmap option_map]. rewrite Hq.
  rewrite !bool_decide_eq_false_2 by done.
  by destruct (Nat.ltb _ _).
Qed.

Lemma open_timestamp_sendgrid now event db message t :
  message_by_transport_id (sg_message_id event) db = Some message ->
  sg_event event = "open" ->
  toISOString (sg_timestamp event) = Some t ->
  processSendGridEvent now event db =
  update_message (m_id message)
    {| u_status := None; u_error_message := None; u_delivered_at := None;
       u_opened_at := Some t; u_clicked_at := None |}
    (handleEmailOpened now (m_lead_id message) db).
Proof.
  intros Hm Hk Ht. unfold processSendGridEvent. rewrite Hm, Hk, Ht. by eval_kind.
Qed.

(** X2.  Once a click has been processed for a lead, or the open that
    finds exactly one earlier open, the lead is qualified and every
    follow-up job that still runs for it is skipped as 'lead_replied':
    the follow-up processor queues no email and writes nothing. *)
Theorem engaged_lead_gets_no_followup now event db id lead :
  resolves_to (sg_message_id event) id db ->
  leads db !! id = Some lead ->
  is_Some (toISOString (sg_timestamp event)) ->
  sg_event event = "click" \/
  (sg_event event = "open" /\ length (opens_of (Some id) db) = 1%nat) ->
  let db' := processSendGridEvent now event db in
  lead_status <$> leads db' !! id = Some StQualified /\
  forall now' sequence industry,
    process now' id sequence industry db' = Some (Skipped "lead_replied", db').
Proof.
  intros Hres Hlead Ht Hkind db'.
  assert (lead_status <$> leads db' !! id = Some StQualified) as Hq.
  { subst db'. destruct Hkind as [Hclick|[Hopen Hone]].
    - destruct (sendgrid_click_step now event db id lead Hres Hlead Ht Hclick) as [Hst _].
      apply lead_state_Some in Hst as (row & -> & <- & _). done.
    - destruct Hres as (message & Hm & Hid). destruct Ht as [t Ht].
      rewrite (open_timestamp_sendgrid _ _ _ _ _ Hm Hopen Ht), leads_update_message, Hid.
      rewrite leads_handleEmailOpened. cbv zeta. rewrite Hone. cbn [Nat.eqb].
      rewrite leads_incrementEngagementScore, Hlead.
      rewrite lookup_alter_eq, lookup_alter_eq, Hlead. done. }
  split; [done|]. by apply qualified_lead_is_skipped.
Qed.

End EngagedLeads.

Lemma engaged_lead_gets_no_followup_witness :
  let db' := EmailWebhooks.processSendGridEvent 5 (EmailWebhooks.example_event "click")
               (EmailWebhooks.example_db Store.StContacted (Some 50)) in
  FollowupProcessor.process 9 "L1" "followup-1" (Js.Str "PLUMBING") db'
    = Some (FollowupProcessor.Skipped "lead_replied", db').
Proof.
  refine (proj2 (engaged_lead_gets_no_followup 5 (EmailWebhooks.example_event "click")
                   (EmailWebhooks.example_db Store.StContacted (Some 50)) "L1"
                   (EmailWebhooks.example_lead Store.StContacted (Some 50)) _ _ _ _) _ _ _).
  - apply example_resolves.
  - reflexivity.
  - by eexists.
  - by left.
Defined.

(* ===================================================================== *)
(** * What a webhook can write (webhooks/email-webhooks.js) *)
(* ===================================================================== *)

Section WebhookWrites.
Import Js Store EmailWebhooks.

(** Every write of a webhook handler to [leads] is one of two updates of
    a single row: a new status, or the score raised by 5 or 10 and capped
    at 100.  A property of the table kept by both is kept by the
    handlers. *)
Section Invariant.
Variable P : gmap string LeadRow -> Prop.
Hypothesis P_status : forall table id st now,
  P table -> P (alter (with_status st now) id table).
Hypothesis P_score : forall table id lead points now,
  table !! id = Some lead -> points = 5 \/ points = 10 ->
  P table ->
  P (alter (with_score (Z.min (score_or_0 (lead_score lead) + points) 100) now) id table).

Lemma inv_updateLeadStatus now leadId st notes db :
  P (leads db) -> P (leads (updateLeadStatus now leadId st notes db)).
Proof.
  destruct leadId as [id|].
  - rewrite leads_updateLeadStatus. apply P_status.
  - by rewrite leads_updateLeadStatus_null.
Qed.

Lemma inv_incrementEngagementScore now leadId points db :
  points = 5 \/ points = 10 ->
  P (leads db) -> P (leads (incrementEngagementScore now leadId points db)).
Proof.
  intros Hp. destruct leadId as [id|].
  - rewrite leads_incrementEngagementScore.
    destruct (leads db !! id) as [lead|] eqn:Hl; [|done]. by apply P_score.
  - by rewrite leads_incrementEngagementScore_null.
Qed.

Lemma inv_handleEmailOpened now leadId db :
  P (leads db) -> P (leads (handleEmailOpened now leadId db)).
Proof.
  intros HP. unfold handleEmailOpened.
  destruct (Nat.eqb _ 1).
  - unfold addJob, set_jobs. cbn [leads]. apply inv_updateLeadStatus.
    unfold recordLeadActivity, set_lead_notes. cbn [leads].
    apply inv_incrementEngagementScore; [by left|done].
  - unfold recordLeadActivity, set_lead_notes. cbn [leads].
    apply inv_incrementEngagementScore; [by left|done].
Qed.

Lemma inv_handleEmailClicked now leadId url db :
  P (leads db) -> P (leads (handleEmailClicked now leadId url db)).
Proof.
  intros HP. unfold handleEmailClicked, cancelScheduledFollowUps, set_jobs. cbn [leads].
  apply inv_updateLeadStatus.
  unfold recordLeadActivity, set_lead_notes. cbn [leads].
  apply inv_incrementEngagementScore; [by right|done].
Qed.

Lemma inv_processSendGridEvent now event db :
  P (leads db) -> P (leads (processSendGridEvent now event db)).
Proof.
  intros HP. unfold processSendGridEvent.
  destruct (message_by_transport_id _ db) as [message|]; [|done].
  cbv zeta.
  repeat match goal with
         | |- context [if ?c then _ else _] => destruct c
         | |- context [match toISOString ?t with _ => _ end] => destruct (toISOString t)
         end;
    rewrite ?leads_update_message; try done;
    auto using inv_updateLeadStatus, inv_handleEmailOpened, inv_handleEmailClicked.
Qed.

Lemma inv_handleMailgunWebhook now event db :
  P (leads db) -> P (leads (handleMailgunWebhook now event db)).
Proof.
  intros HP. unfold handleMailgunWebhook.
  destruct (message_by_transport_id _ db) as [message|]; [|done].
  cbv zeta.
  repeat match goal with
         | |- context [if ?c then _ else _] => destruct c
         | |- context [match toISOString ?t with _ => _ end] => destruct (toISOString t)
         end;
    rewrite ?leads_update_message; try done;
    auto using inv_updateLeadStatus, inv_handleEmailOpened, inv_handleEmailClicked.
Qed.

Lemma inv_handleSendGridWebhook now events db :
  P (leads db) -> P (leads (handleSendGridWebhook now events db)).
Proof.
  unfold handleSendGridWebhook. revert db.
  induction events as [|event events IH]; intros db HP; [done|].
  cbn [fold_left]. apply IH. by apply inv_processSendGridEvent.
Qed.

End Invariant.

Lemma msg_ident_update_message id u db :
  msg_ident <$> messages (update_message id u db) = msg_ident <$> messages db.
Proof.
  unfold update_message. destruct (has_keys u); [|done].
  unfold set_messages. cbn [messages].
  rewrite <- list_fmap_compose. apply list_fmap_ext. intros _ m _. cbn.
  by destruct (String.eqb (m_id m) id).
Qed.

Lemma msg_ident_processSendGridEvent now event db :
  msg_ident <$> messages (processSendGridEvent now event db) = msg_ident <$> messages db.
Proof.
  unfold processSendGridEvent.
  destruct (message_by_transport_id _ db) as [message|]; [|done].
  cbv zeta.
  repeat match goal with
         | |- context [if ?c then _ else _] => destruct c
         | |- context [match toISOString ?t with _ => _ end] => destruct (toISOString t)
         end;
    rewrite ?msg_ident_update_message; try done;
    by rewrite ?messages_updateLeadStatus, ?messages_handleEmailOpened,
         ?messages_handleEmailClicked.
Qed.

Lemma msg_ident_handleMailgunWebhook now event db :
  msg_ident <$> messages (handleMailgunWebhook now event db) = msg_ident <$> messages db.
Proof.
  unfold handleMailgunWebhook.
  destruct (message_by_transport_id _ db) as [message|]; [|done].
  cbv zeta.
  repeat match goal with
         | |- context [if ?c then _ else _] => destruct c
         | |- context [match toISOString ?t with _ => _ end] => destruct (toISOString t)
         end;
    rewrite ?msg_ident_update_message; try done;
    by rewrite ?messages_updateLeadStatus, ?messages_handleEmailOpened,
         ?messages_handleEmailClicked.
Qed.

Lemma fmap_alter_stable {A B} (g : A -> B) (f : A -> A) (id : string)
    (table : gmap string A) :
  (forall x, g (f x) = g x) -> g <$> alter f id table = g <$> table.
Proof.
  intros Hgf. apply map_eq. intros k. rewrite !lookup_fmap.
  destruct (decide (k = id)) as [->|Hne].
  - rewrite lookup_alter_eq. destruct (table !! id); cbn; [by rewrite Hgf|done].
  - by rewrite lookup_alter_ne.
Qed.

(** X3.  Whatever events a SendGrid batch or a Mailgun call brings, the
    handlers add and delete no lead and no message: the leads keep their
    ids and their tier, component scores, recommendations, scoring time
    and scraped data (a score raised by an open or a click leaves the
    stored tier as it was), and the messages keep their ids, leads and
    transport ids, in their order. *)
Theorem webhooks_keep_rows now db :
  (forall events,
     let db' := handleSendGridWebhook now events db in
     scoring_columns <$> leads db' = scoring_columns <$> leads db /\
     msg_ident <$> messages db' = msg_ident <$> messages db) /\
  (forall event,
     let db' := handleMailgunWebhook now event db in
     scoring_columns <$> leads db' = scoring_columns <$> leads db /\
     msg_ident <$> messages db' = msg_ident <$> messages db).
Proof.
  split.
  - intros events. cbv zeta. split.
    + apply (inv_handleSendGridWebhook
               (fun table => scoring_columns <$> table = scoring_columns <$> leads db));
        [| |done].
      * intros table id st t <-. by apply fmap_alter_stable.
      * intros table id lead points t _ _ <-. by apply fmap_alter_stable.
    + unfold handleSendGridWebhook. revert db.
      induction events as [|event events IH]; intros db; [done|].
      cbn [fold_left]. by rewrite IH, msg_ident_processSendGridEvent.
  - intros event. cbv zeta. split.
    + apply (inv_handleMailgunWebhook
               (fun table => scoring_columns <$> table = scoring_columns <$> leads db));
        [| |done].
      * intros table id st t <-. by apply fmap_alter_stable.
      * intros table id lead points t _ _ <-. by apply fmap_alter_stable.
    + apply msg_ident_handleMailgunWebhook.
Qed.

Lemma score_in_range_alter (f : LeadRow -> LeadRow) id (table : gmap string LeadRow) :
  (forall row, table !! id = Some row -> score_in_range row -> score_in_range (f row)) ->
  map_Forall (fun _ row => score_in_range row) table ->
  map_Forall (fun _ row => score_in_range row) (alter f id table).
Proof.
  intros Hf Hall k row'. destruct (decide (k = id)) as [->|Hne].
  - rewrite lookup_alter_eq. destruct (table !! id) as [row|] eqn:Hrow; [|done].
    intros [= <-]. apply Hf; [done|]. by apply (Hall id).
  - rewrite lookup_alter_ne by done. apply Hall.
Qed.

(** The score of every lead of [table'] is at least what it is in
    [table] (a null score counting as 0). *)
Lemma never_lower_alter (base : gmap string LeadRow) f id (table : gmap string LeadRow) :
  (forall row, table !! id = Some row ->
               score_in_range row ->
               score_or_0 (lead_score row) <= score_or_0 (lead_score (f row))) ->
  map_Forall (fun _ row => score_in_range row) table ->
  (forall k row0, base !! k = Some row0 ->
     exists row, table !! k = Some row /\
                 score_or_0 (lead_score row0) <= score_or_0 (lead_score row)) ->
  forall k row0, base !! k = Some row0 ->
    exists row, alter f id table !! k = Some row /\
                score_or_0 (lead_score row0) <= score_or_0 (lead_score row).
Proof.
  intros Hf Hrange Hbase k row0 Hk.
  destruct (Hbase k row0 Hk) as (row & Hrow & Hle).
  destruct (decide (k = id)) as [->|Hne].
  - exists (f row). rewrite lookup_alter_eq, Hrow. split; [done|].
    etrans; [exact Hle|]. apply Hf; [done|]. by apply (Hrange id).
  - exists row. by rewrite lookup_alter_ne.
Qed.

(** X4.  If every lead score is null or within 0..100 before a SendGrid
    batch, the same holds after it, whatever the events, and no lead's
    score is lower than before (a null score counting as 0). *)
Theorem webhook_scores_stay_in_range now events db :
  scores_in_range db ->
  let db' := handleSendGridWebhook now events db in
  scores_in_range db' /\
  forall id row, leads db !! id = Some row ->
    exists row', leads db' !! id = Some row' /\
                 score_or_0 (lead_score row) <= score_or_0 (lead_score row').
Proof.
  intros Hrange. cbv zeta.
  apply (inv_handleSendGridWebhook
           (fun table =>
              map_Forall (fun _ row => score_in_range row) table /\
              forall id row, leads db !! id = Some row ->
                exists row', table !! id = Some row' /\
                             score_or_0 (lead_score row) <= score_or_0 (lead_score row'))).
  - intros table id st t [Hr Hle]. split.
    + apply score_in_range_alter; [|done]. by intros row _ Hrow.
    + apply never_lower_alter; [|done|done]. intros row _ _. reflexivity.
  - intros table id lead points t Hlead Hp [Hr Hle].
    pose proof (Hr id lead Hlead) as Hin. unfold score_in_range in Hin.
    split.
    + apply score_in_range_alter; [|done]. intros row _ _.
      unfold score_in_range, score_or_0 in *. cbn.
      destruct (lead_score lead); cbn; lia.
    + apply never_lower_alter; [|done|done]. intros row Hrow _.
      rewrite Hlead in Hrow. injection Hrow as <-.
      unfold score_or_0 in *. cbn. destruct (lead_score lead); cbn; lia.
  - split; [exact Hrange|]. intros id row Hrow. exists row. split; [done|lia].
Qed.

End WebhookWrites.

Lemma webhook_scores_stay_in_range_witness :
  let db := EmailWebhooks.example_db Store.StContacted (Some 97) in
  let db' := EmailWebhooks.handleSendGridWebhook 5
               [EmailWebhooks.example_event "open"; EmailWebhooks.example_event "click"] db in
  EmailWebhooks.scores_in_range db' /\
  Store.lead_score <$> Store.leads db' !! "L1" = Some (Some 100).
Proof.
  split; [|reflexivity].
  refine (proj1 (webhook_scores_stay_in_range 5
                   [EmailWebhooks.example_event "open"; EmailWebhooks.example_event "click"]
                   (EmailWebhooks.example_db Store.StContacted (Some 97)) _)).
  intros id row. unfold EmailWebhooks.example_db. cbn [Store.leads].
  intros [<- <-]%lookup_singleton_Some. unfold EmailWebhooks.score_in_range. cbn. lia.
Defined.

Section Providers.
Import Js Store EmailWebhooks.

(** X5.  The Mailgun handler and the SendGrid handler are the same
    state transformer up to the names of the events: a Mailgun
    'delivered', 'opened', 'clicked', 'bounced' or 'failed' event changes
    the database exactly as the SendGrid 'delivered', 'open', 'click',
    'bounce' or 'dropped' event that carries the same transport id (angle
    brackets removed), timestamp, url and reason. *)
Theorem mailgun_agrees_with_sendgrid now (event : MailgunEvent) (kind : string) db :
  (mg_event event, kind) ∈
    [("delivered", "delivered"); ("opened", "open"); ("clicked", "click");
     ("bounced", "bounce"); ("failed", "dropped")] ->
  handleMailgunWebhook now event db =
  processSendGridEvent now
    {| sg_event := kind; sg_email := mg_recipient event;
       sg_message_id := mailgun_message_id event;
       sg_timestamp := mg_timestamp event; sg_url := mg_url event;
       sg_reason := mg_error event |} db.
Proof.
  intros Hkind. unfold handleMailgunWebhook, processSendGridEvent.
  cbn [sg_event sg_message_id sg_timestamp sg_url sg_reason].
  destruct (message_by_transport_id _ db) as [message|]; [|done].
  cbv zeta.
  repeat (apply elem_of_cons in Hkind as [[= -> ->]|Hkind]; [by eval_kind|]).
  by apply elem_of_nil in Hkind.
Qed.

End Providers.

Lemma mailgun_agrees_with_sendgrid_witness :
  let db := EmailWebhooks.example_db Store.StContacted (Some 50) in
  EmailWebhooks.handleMailgunWebhook 5 (EmailWebhooks.example_mailgun_event "clicked") db =
  EmailWebhooks.processSendGridEvent 5 (EmailWebhooks.example_event "click") db.
Proof.
  cbv zeta.
  rewrite (mailgun_agrees_with_sendgrid 5 (EmailWebhooks.example_mailgun_event "clicked")
             "click").
  - reflexivity.
  - vm_compute. do 2 right. left.
Defined.

(* ===================================================================== *)
(** * The follow-up processor (workers/processors/followup-processor.js) *)
(* ===================================================================== *)

Section FollowUps.
Import Js Store EmailWebhooks FollowupProcessor.



End FollowUps.


(* ===================================================================== *)
(** * Scoring jobs (workers/processors/scoring-processor.js) *)
(* ===================================================================== *)

Section ScoringJobs.
Import Js Store ScoringProcessor.
Context `{Runtime}.
Implicit Types (db : Db) (now : Z) (env : Env.Env).

(** [scoreSingleLead] run on a lead of the table whose data the scorer
    accepts. *)
Lemma scoreSingleLead_runs env now id lead scoreData db :
  leads db !! id = Some lead ->
  LeadScorer.calculateScore now (Obj (lead_data lead)) = Some scoreData ->
  exists db',
    scoreSingleLead env now id db =
      Some ({| r_leadId := id; r_score := LeadScorer.totalScore scoreData;
               r_tier := LeadScorer.tier scoreData |}, db') /\
    leads db' = alter (with_scoreData scoreData now) id (leads db) /\
    messages db' = messages db /\
    lead_notes db' = lead_notes db /\
    jobs db' = if campaign_fires env (LeadScorer.totalScore scoreData) id db
               then jobs db ++ campaign_jobs id lead else jobs db.
Proof.
  intros Hlead Hscore. unfold scoreSingleLead, lead_by_id. cbn [mbind option_bind].
  rewrite Hlead. cbn [mbind option_bind]. rewrite Hscore. cbn [mbind option_bind].
  cbv zeta. eexists. split; [done|].
  unfold campaign_fires.
  destruct (80 <=? LeadScorer.totalScore scoreData); [|done].
  pose proof (triggerHotLeadCampaign_effect env id lead scoreData
                (update_lead (Some id) (with_scoreData scoreData now) db))
    as (Hl & Hm & Hj).
  rewrite Hl, Hm, Hj. split; [done|]. split; [done|]. split; [|done].
  unfold triggerHotLeadCampaign.
  repeat match goal with |- context [if ?c then _ else _] => destruct c end; done.
Qed.








Lemma calculateScore_shape now lead scoreData :
  LeadScorer.calculateScore now lead = Some scoreData ->
  exists scores,
    LeadScorer.computeScores lead = Some scores /\
    scoreData =
      {| LeadScorer.totalScore := Math_round (LeadScorer.weightedTotal scores);
         LeadScorer.tier :=
           LeadScorer.determineLeadTier (Math_round (LeadScorer.weightedTotal scores));
         LeadScorer.componentScores := scores;
         LeadScorer.recommendations := LeadScorer.generateRecommendations scores;
         LeadScorer.calculatedAt := now |}.
Proof.
  unfold LeadScorer.calculateScore. intros Hs.
  destruct (get lead "company_name"); [|discriminate]. cbn [mbind option_bind] in Hs.
  destruct (LeadScorer.computeScores lead) as [scores|]; [|discriminate].
  cbn [mbind option_bind] in Hs. injection Hs as <-. by exists scores.
Qed.


(** X8.  Scoring a lead writes its total, between 0 and 100, and the
    tier that [determineLeadTier] gives this total into the lead's row,
    and reports both; the lead keeps its status and its scraped data, no
    other lead is touched, and no message and no note is written. *)
Theorem scoring_writes_one_row env now leadId db r db' :
  scoreSingleLead env now leadId db = Some (r, db') ->
  exists lead row',
    leads db !! leadId = Some lead /\ leads db' !! leadId = Some row' /\
    lead_score row' = Some (r_score r) /\ lead_tier row' = Some (r_tier r) /\
    r_tier r = LeadScorer.determineLeadTier (r_score r) /\
    0 <= r_score r <= 100 /\
    lead_status row' = lead_status lead /\ lead_data row' = lead_data lead /\
    (forall id, id <> leadId -> leads db' !! id = leads db !! id) /\
    messages db' = messages db /\ lead_notes db' = lead_notes db.
Proof.
  intros Hrun.
  destruct (scoreSingleLead_effect _ _ _ _ _ _ Hrun)
    as (lead & scoreData & Hlead & Hcalc & _).
  destruct (scoreSingleLead_runs env now leadId lead scoreData db Hlead Hcalc)
    as (db1 & Hrun1 & Hleads & Hmsgs & Hnotes & _).
  rewrite Hrun in Hrun1. injection Hrun1 as -> <-.
  destruct (calculateScore_shape _ _ _ Hcalc) as (scores & Hscores & ->).
  exists lead, (with_scoreData
                  {| LeadScorer.totalScore := Math_round (LeadScorer.weightedTotal scores);
                     LeadScorer.tier :=
                       LeadScorer.determineLeadTier
                         (Math_round (LeadScorer.weightedTotal scores));
                     LeadScorer.componentScores := scores;
                     LeadScorer.recommendations := LeadScorer.generateRecommendations scores;
                     LeadScorer.calculatedAt := now |} now lead).
  rewrite Hleads, lookup_alter_eq, Hlead.
  cbn [r_score r_tier LeadScorer.totalScore LeadScorer.tier].
  do 5 (split; [done|]).
  split; [by apply weightedTotal_round, computeScores_on_grid with (lead := Obj (lead_data lead))|].
  do 2 (split; [done|]). split; [|done].
  intros id Hne. by rewrite lookup_alter_ne.
Qed.


End ScoringJobs.


Lemma scoring_writes_one_row_witness :
  exists r db',
    ScoringProcessor.scoreSingleLead (H := LeadScorer.example_runtime) Env.default_env 5 "L1"
      ScoringProcessor.hot_db = Some (r, db') /\
    ScoringProcessor.r_score r = 92 /\
    Store.lead_tier <$> Store.leads db' !! "L1" = Some (Some "Hot Lead").
Proof.
  destruct (ScoringProcessor.scoreSingleLead (H := LeadScorer.example_runtime)
              Env.default_env 5 "L1" ScoringProcessor.hot_db) as [[r db']|] eqn:Hrun;
    [|by vm_compute in Hrun].
  exists r, db'. split; [reflexivity|].
  destruct (scoring_writes_one_row (H := LeadScorer.example_runtime) _ _ _ _ _ _ Hrun)
    as (lead & row' & _ & -> & _ & Htier & Hdet & _).
  vm_compute in Hrun. injection Hrun as <- _. split; [reflexivity|].
  cbn. by rewrite Htier.
Defined.


(* ===================================================================== *)
(** * Email jobs (workers/processors/email-processor.js) *)
(* ===================================================================== *)

Section EmailJobs.
Import Js Store EmailWebhooks ScoringProcessor EmailProcessor.
Context `{Runtime}.

(** What an email job does for a lead that has an address. *)
Lemma email_process_run newId delivery now leadId lead db :
  leads db !! leadId = Some lead ->
  truthy (assoc "email" (lead_data lead)) = true ->
  let messageId := match delivery with Accepted id => id | Refused _ => None end in
  let error := match delivery with Accepted _ => None | Refused e => Some e end in
  let row := {| m_id := newId; m_lead_id := Some leadId;
                m_message_id := or_null messageId; m_status := status_of error;
                m_error_message := error; m_delivered_at := None;
                m_opened_at := None; m_clicked_at := None |} in
  let db' := snd (EmailProcessor.process newId delivery now leadId db) in
  messages db' = messages db ++ [row] /\
  jobs db' = jobs db /\
  leads db' = match delivery with
              | Accepted _ => alter (with_status StContacted now) leadId (leads db)
              | Refused _ => leads db
              end.
Proof.
  intros Hlead Hemail. cbv zeta. unfold EmailProcessor.process, lead_by_id.
  cbn [mbind option_bind]. rewrite Hlead, Hemail. cbn [negb].
  destruct delivery; cbn [snd]; unfold EmailProcessor.updateLeadStatus, update_lead,
    recordMessage; rewrite Hlead; done.
Qed.

Lemma messages_of_lead_app leadId db db' rows :
  messages db' = messages db ++ rows ->
  messages_of_lead (Some leadId) db' =
  messages_of_lead (Some leadId) db ++ filter (fun m => m_lead_id m = Some leadId) rows.
Proof. intros Hm. unfold messages_of_lead. by rewrite Hm, filter_app. Qed.

(** X10.  One email job for a lead that has an address, whether the
    mail was accepted by the transport or the attempt failed, adds one
    row to the lead's messages.  From then on the test of the automatic
    campaign fails for this lead under every threshold: scoring the lead
    again, however hot, queues nothing, so an intro email that failed is
    not queued again by scoring. *)
Theorem email_attempt_blocks_campaign newId delivery now leadId lead db :
  leads db !! leadId = Some lead ->
  truthy (assoc "email" (lead_data lead)) = true ->
  let db' := snd (EmailProcessor.process newId delivery now leadId db) in
  length (messages_of_lead (Some leadId) db') =
    S (length (messages_of_lead (Some leadId) db)) /\
  (forall env total, campaign_fires env total leadId db' = false) /\
  forall env now' r db'',
    scoreSingleLead env now' leadId db' = Some (r, db'') -> jobs db'' = jobs db.
Proof.
  intros Hlead Hemail db'.
  destruct (email_process_run newId delivery now leadId lead db Hlead Hemail)
    as (Hm & Hj & _). fold db' in Hm, Hj.
  assert (length (messages_of_lead (Some leadId) db') =
          S (length (messages_of_lead (Some leadId) db))) as Hlen.
  { rewrite (messages_of_lead_app leadId db db' _ Hm).
    rewrite filter_cons_True by done. rewrite length_app. cbn. lia. }
  assert (forall env total, campaign_fires env total leadId db' = false) as Hfires.
  { intros env total. unfold campaign_fires. rewrite Hlen. cbn [Nat.eqb].
    by rewrite andb_false_r. }
  split; [done|]. split; [done|].
  intros env now' r db'' Hrun.
  destruct (scoreSingleLead_effect _ _ _ _ _ _ Hrun)
    as (lead' & scoreData & _ & _ & _ & _ & _ & Hjobs).
  by rewrite Hjobs, Hfires.
Qed.



End EmailJobs.

Lemma email_attempt_blocks_campaign_witness :
  let db' := snd (EmailProcessor.process "M1" (EmailProcessor.Refused "Connection timeout") 5
                    "L1" (EmailProcessor.example_db Store.StNew)) in
  length (Store.messages_of_lead (Some "L1") db') = 1%nat /\
  ScoringProcessor.campaign_fires Env.default_env 92 "L1" db' = false.
Proof.
  destruct (email_attempt_blocks_campaign (H := LeadScorer.example_runtime) "M1"
              (EmailProcessor.Refused "Connection timeout") 5 "L1"
              (EmailProcessor.example_lead Store.StNew)
              (EmailProcessor.example_db Store.StNew)) as (Hlen & Hfires & _);
    [reflexivity|reflexivity|].
  split; [exact Hlen|apply Hfires].
Defined.


(* ===================================================================== *)
(** * The scoring and follow-up triggers (automation/cron-scheduler.js) *)
(* ===================================================================== *)

Section CronTriggers.
Import Js Store ScoringProcessor CronScheduler.
Context `{Runtime}.










End CronTriggers.



(* ===================================================================== *)
(** * Enrichment and the scraping job
      (scrapers/home-service-scraper.js, workers/processors/scraping-processor.js) *)
(* ===================================================================== *)

Section Enrichment.
Import Js HomeServiceScraper LeadEnrichment.

Lemma filterSeen_keys (seen : gset string) (leads : list LeadCandidate) :
  NoDup (dedupKey <$> filterSeen seen leads) /\
  forall k, k ∈ dedupKey <$> filterSeen seen leads -> k ∉ seen.
Proof.
  revert seen. induction leads as [|lead leads IH]; intros seen.
  - split; [constructor|]. by intros k ?%elem_of_nil.
  - cbn [filterSeen]. cbv zeta. destruct (decide (dedupKey lead ∈ seen)) as [Hin|Hout].
    + apply IH.
    + destruct (IH ({[dedupKey lead]} ∪ seen)) as [Hnodup Hfresh].
      cbn [fmap list_fmap]. split.
      * constructor; [|done]. intros Hk. apply Hfresh in Hk.
        apply Hk, elem_of_union_l, elem_of_singleton. done.
      * intros k [->|Hk]%elem_of_cons; [done|].
        apply Hfresh in Hk. intros Hseen. by apply Hk, elem_of_union_r.
Qed.

Lemma base_enrichLeads observe leads : base <$> enrichLeads observe leads = leads.
Proof.
  unfold enrichLeads. rewrite fmap_imap.
  rewrite (imap_ext _ (const id)) by done.
  rewrite imap_const. apply list_fmap_id.
Qed.

Lemma sizeIndicators_without_site lead :
  truthy (opt_get (websiteQuality lead) "hasLiveChat") = false ->
  truthy (opt_get (websiteQuality lead) "hasFacebookPixel") = false ->
  truthy (opt_get (websiteQuality lead) "hasGoogleAnalytics") = false ->
  estimateCompanySize lead =
    if reviews_over lead 200 || (reviews_over lead 100 && rated_high lead)
    then "Medium" else "Small".
Proof.
  intros Hchat Hpixel Hga. unfold estimateCompanySize, sizeIndicators.
  rewrite Hchat, Hpixel, Hga. cbv zeta.
  assert (reviews_over lead 200 = true -> reviews_over lead 100 = true) as H200.
  { unfold reviews_over. destruct (reviewCount (base lead)); [|done].
    rewrite !Z.ltb_lt. lia. }
  destruct (reviews_over lead 200); [rewrite H200 by done|];
    destruct (reviews_over lead 100), (reviews_over lead 50), (rated_high lead); done.
Qed.

(** X16.  Whatever the size indicators, [estimateCompanySize] answers
    'Small', 'Medium' or 'Large'.  For a lead whose site shows neither a
    chat widget nor a Facebook pixel nor Google Analytics (in particular
    a lead without a site) the answer is never 'Large': it is 'Medium'
    exactly when the lead has more than 200 reviews, or more than 100
    reviews and a rating of at least 4.5, and 'Small' otherwise. *)
Theorem estimateCompanySize_classes lead :
  estimateCompanySize lead ∈ ["Small"; "Medium"; "Large"] /\
  (truthy (opt_get (websiteQuality lead) "hasLiveChat") = false ->
   truthy (opt_get (websiteQuality lead) "hasFacebookPixel") = false ->
   truthy (opt_get (websiteQuality lead) "hasGoogleAnalytics") = false ->
   estimateCompanySize lead =
     if reviews_over lead 200 || (reviews_over lead 100 && rated_high lead)
     then "Medium" else "Small").
Proof.
  split; [|apply sizeIndicators_without_site].
  unfold estimateCompanySize. cbv zeta.
  destruct (5 <=? _); [set_solver|]. destruct (3 <=? _); set_solver.
Qed.

(** X17.  [scrapeAllSources] returns one enriched lead for each lead
    that [deduplicateLeads] keeps of the Google Maps, Yelp and Yellow
    Pages results joined in this order (a rejected source counting as
    empty), in the same order and with name, address and the other
    scraped fields unchanged, so no two returned leads share a key.
    Every returned lead carries an estimated size, one of 'Small',
    'Medium' and 'Large'; a lead without a site gets no site analysis
    and no SEO data, and is 'Small' or 'Medium'. *)
Theorem scrapeAllSources_result observe googleLeads yelpLeads yellowPagesLeads :
  let result := scrapeAllSources observe googleLeads yelpLeads yellowPagesLeads in
  base <$> result =
    deduplicateLeads (fulfilled googleLeads ++ fulfilled yelpLeads ++
                      fulfilled yellowPagesLeads) /\
  NoDup ((fun lead => dedupKey (base lead)) <$> result) /\
  Forall (fun lead =>
            estimatedSize lead ∈ [Str "Small"; Str "Medium"; Str "Large"] /\
            (has_website (base lead) = false ->
             websiteQuality lead = Undefined /\ seoData lead = Undefined /\
             estimatedSize lead ∈ [Str "Small"; Str "Medium"])) result.
Proof.
  cbv zeta. unfold scrapeAllSources. cbv zeta.
  set (all := fulfilled googleLeads ++ fulfilled yelpLeads ++ fulfilled yellowPagesLeads).
  split; [apply base_enrichLeads|]. split.
  - rewrite (list_fmap_compose base dedupKey), base_enrichLeads.
    apply filterSeen_keys.
  - apply Forall_lookup. intros i lead Hi. unfold enrichLeads in Hi.
    rewrite list_lookup_imap in Hi.
    destruct (deduplicateLeads all !! i) as [candidate|]; [|done].
    injection Hi as <-. cbn [estimatedSize base websiteQuality seoData enrichLead].
    split.
    + unfold estimateCompanySize. cbv zeta.
      destruct (5 <=? _); [set_solver|]. destruct (3 <=? _); set_solver.
    + intros Hsite. rewrite Hsite. split; [done|]. split; [done|].
      rewrite sizeIndicators_without_site by done.
      destruct (_ || _); set_solver.
Qed.

End Enrichment.

Lemma estimateCompanySize_classes_witness :
  let lead := LeadEnrichment.enrichLead LeadEnrichment.example_observation
                {| HomeServiceScraper.name := "Quiet Electric";
                   HomeServiceScraper.address := "2 Oak Ave";
                   HomeServiceScraper.phone := None; HomeServiceScraper.website := None;
                   HomeServiceScraper.rating := None;
                   HomeServiceScraper.reviewCount := Some 250;
                   HomeServiceScraper.source := "Yelp" |} in
  LeadEnrichment.estimateCompanySize lead = "Medium".
Proof.
  cbv zeta.
  rewrite (proj2 (estimateCompanySize_classes _)); reflexivity.
Defined.

Section ScrapingJobs.
Import Js Store LeadEnrichment ScrapingProcessor.
Context `{Runtime}.








End ScrapingJobs.


(* ===================================================================== *)
(** * The rate limiter (utils/rate-limiter.js) *)
(* ===================================================================== *)

Section RateLimits.
Import Js RateLimiter.




End RateLimits.


(* ===================================================================== *)
(** * Recommendations and the scoring report (scoring/lead-scorer.js) *)
(* ===================================================================== *)

Section Recommendations.
Import Js LeadScorer.

(** X20.  [generateRecommendations] lists one recommendation for each
    of the five thresholds that is met (website quality at 70, SEO, ad
    presence, reviews and social presence at 60), in this order, and
    none for company size or market competitiveness.  The list is sorted
    by priority as built, so the final sort changes nothing: the three
    'High' categories come before the two 'Medium' ones, and no
    recommendation is 'Low'. *)
Theorem generateRecommendations_categories (scores : ComponentScores) :
  let recs := generateRecommendations scores in
  category <$> recs =
    (if 70 <=? websiteQuality scores then ["Website"] else []) ++
    (if 60 <=? seoRanking scores then ["SEO"] else []) ++
    (if 60 <=? adPresence scores then ["Paid Advertising"] else []) ++
    (if 60 <=? reviewScore scores then ["Reputation Management"] else []) ++
    (if 60 <=? socialPresence scores then ["Social Media"] else []) /\
  Forall (fun r => priority r =
                   if bool_decide (category r ∈ ["Website"; "SEO"; "Paid Advertising"])
                   then High else Medium) recs /\
  StronglySorted (fun a b => priorityOrder (priority a) <= priorityOrder (priority b)) recs.
Proof.
  cbv zeta. unfold generateRecommendations. cbv zeta.
  destruct (70 <=? websiteQuality scores), (60 <=? seoRanking scores),
    (60 <=? adPresence scores), (60 <=? reviewScore scores),
    (60 <=? socialPresence scores);
    (split; [reflexivity|]; split;
     [repeat constructor | repeat (constructor; [|repeat constructor; cbn; lia])]);
    constructor.
Qed.

End Recommendations.

Section Report.
Import Js LeadScorer.
Context `{Runtime}.

Lemma tier_of_scoreOne now lead sl :
  scoreOne now lead = Some sl ->
  sl_tier sl ∈ ["Hot Lead"; "Warm Lead"; "Cold Lead"; "Low Priority"; "Error"].
Proof.
  unfold scoreOne.
  destruct (calculateScore now lead) as [scoreData|] eqn:Hcalc.
  - intros [= <-]. cbn [sl_tier].
    apply calculateScore_shape in Hcalc as (scores & _ & ->). cbn [tier].
    unfold determineLeadTier.
    repeat match goal with |- context [if ?c then _ else _] => destruct c end; set_solver.
  - destruct (get lead "company_name"); [|done]. cbn [mbind option_bind].
    intros [= <-]. set_solver.
Qed.

Lemma tiers_of_scoreLoop now leads scored :
  scoreLoop now leads = Some scored ->
  length scored = length leads /\
  Forall (fun sl => sl_tier sl ∈
            ["Hot Lead"; "Warm Lead"; "Cold Lead"; "Low Priority"; "Error"]) scored.
Proof.
  revert scored. induction leads as [|lead leads IH]; intros scored.
  - intros [= <-]. by split.
  - cbn [scoreLoop]. destruct (scoreOne now lead) as [sl|] eqn:Hone; [|done].
    cbn [mbind option_bind]. destruct (scoreLoop now leads) as [rest|]; [|done].
    cbn [mbind option_bind]. intros [= <-]. destruct (IH rest eq_refl) as [Hlen Hall].
    split; [cbn; by rewrite Hlen|]. constructor; [|done]. by eapply tier_of_scoreOne.
Qed.

Lemma count_tiers (scored : list ScoredLead) :
  Forall (fun sl => sl_tier sl ∈
            ["Hot Lead"; "Warm Lead"; "Cold Lead"; "Low Priority"; "Error"]) scored ->
  (hotLeads (tierDistribution scored) + warmLeads (tierDistribution scored) +
   coldLeads (tierDistribution scored) + lowPriority (tierDistribution scored) +
   length (filter (fun sl => sl_tier sl = "Error") scored) = length scored)%nat.
Proof.
  unfold tierDistribution. cbn [hotLeads warmLeads coldLeads lowPriority].
  induction 1 as [|sl scored Htier _ IH]; [done|].
  rewrite !filter_cons.
  repeat (apply elem_of_cons in Htier as [Htier|Htier];
          [rewrite Htier;
           repeat match goal with
                  | |- context [decide (?a = ?b)] =>
                      destruct (decide (a = b)) as [?|?]; [try discriminate|try done]
                  end;
           cbn [length]; lia|]).
  by apply elem_of_nil in Htier.
Qed.

(** X21.  For the list [scoreLeads] returns, the four counts of the
    report's tier distribution and the number of leads whose scoring
    raised add up to the number of leads scored: every lead is in
    exactly one of the four tiers or carries the tier 'Error', which the
    report counts in no tier. *)
Theorem report_tiers_add_up now leads scored :
  scoreLeads now leads = Some scored ->
  let distribution := tierDistribution scored in
  (hotLeads distribution + warmLeads distribution + coldLeads distribution +
   lowPriority distribution +
   length (filter (fun sl => sl_tier sl = "Error") scored) = length leads)%nat.
Proof.
  unfold scoreLeads. destruct (scoreLoop now leads) as [scoredLeads|] eqn:Hloop; [|done].
  cbn [mbind option_bind]. intros [= <-]. cbv zeta.
  destruct (tiers_of_scoreLoop _ _ _ Hloop) as [Hlen Hall].
  rewrite <- Hlen, <- (Permutation_length (Array_sort_perm
                          (fun a b => sl_score b - sl_score a) scoredLeads)).
  apply count_tiers.
  by rewrite (Array_sort_perm (fun a b => sl_score b - sl_score a) scoredLeads).
Qed.

End Report.

Lemma report_tiers_add_up_witness :
  exists scored,
    LeadScorer.scoreLeads (H := LeadScorer.example_runtime) 5 LeadScorer.example_batch
      = Some scored /\
    LeadScorer.hotLeads (LeadScorer.tierDistribution scored) = 2%nat /\
    length (filter (fun sl => LeadScorer.sl_tier sl = "Error") scored) = 1%nat.
Proof.
  destruct (LeadScorer.scoreLeads (H := LeadScorer.example_runtime) 5
              LeadScorer.example_batch) as [scored|] eqn:Hscored;
    [|by vm_compute in Hscored].
  exists scored. split; [reflexivity|].
  pose proof (report_tiers_add_up (H := LeadScorer.example_runtime) _ _ _ Hscored) as Hsum.
  vm_compute in Hscored. injection Hscored as <-.
  split; reflexivity.
Defined.

(* ===================================================================== *)
(** * More on deduplication and the environment
      (scrapers/home-service-scraper.js, automation/cron-scheduler.js) *)
(* ===================================================================== *)

Section DeduplicationLaws.
Import HomeServiceScraper.

Lemma filterSeen_fixed (seen : gset string) (leads : list LeadCandidate) :
  NoDup (dedupKey <$> leads) ->
  (forall k, k ∈ dedupKey <$> leads -> k ∉ seen) ->
  filterSeen seen leads = leads.
Proof.
  revert seen. induction leads as [|lead leads IH]; intros seen Hnodup Hfresh; [done|].
  cbn [fmap list_fmap] in Hnodup, Hfresh. apply NoDup_cons in Hnodup as [Hhead Hnodup].
  cbn [filterSeen]. cbv zeta.
  rewrite decide_False by (apply Hfresh; by left).
  f_equal. apply IH; [done|].
  intros k Hk [->%elem_of_singleton|Hseen]%elem_of_union; [done|].
  by apply (Hfresh k); [right|].
Qed.

Ltac same_set :=
  apply set_eq; intros ?;
  rewrite ?elem_of_union, ?elem_of_singleton, ?elem_of_list_to_set, ?elem_of_cons,
    ?elem_of_union, ?elem_of_singleton, ?elem_of_empty, ?elem_of_nil;
  intuition (subst; auto).

Lemma filterSeen_app (seen : gset string) (first second : list LeadCandidate) :
  filterSeen seen (first ++ second) =
  filterSeen seen first ++
  filterSeen (list_to_set (dedupKey <$> first) ∪ seen) second.
Proof.
  revert seen. induction first as [|lead first IH]; intros seen.
  - cbn. f_equal. same_set.
  - cbn [app filterSeen fmap list_fmap list_to_set]. cbv zeta.
    destruct (decide (dedupKey lead ∈ seen)) as [Hin|Hout].
    + rewrite IH. do 2 f_equal. same_set.
    + cbn [app]. f_equal. rewrite IH. do 2 f_equal. same_set.
Qed.

(** X22.  Deduplicating twice is deduplicating once.  And the leads of
    a later source are deduplicated against the keys of the earlier
    ones: the result for two lists joined is the result for the first,
    followed by the leads kept of the second whose key no lead of the
    first has. *)
Theorem deduplicateLeads_laws (first second : list LeadCandidate) :
  deduplicateLeads (deduplicateLeads first) = deduplicateLeads first /\
  deduplicateLeads (first ++ second) =
    deduplicateLeads first ++
    filter (fun lead => dedupKey lead ∉ dedupKey <$> first) (deduplicateLeads second).
Proof.
  split.
  - unfold deduplicateLeads. destruct (filterSeen_keys ∅ first) as [Hnodup _].
    apply filterSeen_fixed; [done|]. intros k _. apply not_elem_of_empty.
  - unfold deduplicateLeads. rewrite filterSeen_app. f_equal.
    generalize (dedupKey <$> first). intros keys.
    assert (forall seen : gset string,
              filterSeen (list_to_set keys ∪ seen) second =
              filter (fun lead => dedupKey lead ∉ keys) (filterSeen seen second)) as Hgen.
    { induction second as [|lead second IH]; intros seen; [done|].
      cbn [filterSeen]. cbv zeta.
      destruct (decide (dedupKey lead ∈ seen)) as [Hin|Hout].
      - rewrite decide_True by (by apply elem_of_union_r). apply IH.
      - rewrite filter_cons.
        destruct (decide (dedupKey lead ∈ keys)) as [Hk|Hk].
        + rewrite decide_True by (by apply elem_of_union_l, elem_of_list_to_set).
          rewrite decide_False by (by intros ?).
          rewrite <- IH. f_equal. same_set.
        + rewrite decide_False
            by (by intros [?%elem_of_list_to_set|?]%elem_of_union).
          rewrite decide_True by done.
          f_equal. rewrite <- IH. f_equal. same_set. }
    apply Hgen.
Qed.

End DeduplicationLaws.


Section SavedLeads.
Import Js HomeServiceScraper LeadEnrichment.
Context `{Runtime}.

(** X23.  The object that [saveLeads] builds for a lead returned by
    [scrapeAllSources] is a Lead Record: its industry, size and address
    are text or null, so [calculateScore] returns on it and does not
    raise, whatever the look-ups of the enrichment observed.  Its size
    is the estimate, never 'Unknown'. *)
Theorem saved_lead_is_scorable observe googleLeads yelpLeads yellowPagesLeads
    now industry lead :
  lead ∈ scrapeAllSources observe googleLeads yelpLeads yellowPagesLeads ->
  LeadScorer.is_lead_record (Obj (leadData now industry lead)) /\
  is_Some (LeadScorer.calculateScore now (Obj (leadData now industry lead))) /\
  assoc "estimated_size" (leadData now industry lead) = estimatedSize lead /\
  estimatedSize lead ∈ [Str "Small"; Str "Medium"; Str "Large"].
Proof.
  intros Hin. unfold scrapeAllSources, enrichLeads in Hin. cbv zeta in Hin.
  apply elem_of_lookup_imap_1 in Hin as (i & candidate & -> & _).
  assert (exists size, estimatedSize (enrichLead (observe i) candidate) = Str size /\
                       size ∈ ["Small"; "Medium"; "Large"]) as (size & Hsize & Hclass).
  { eexists. split; [reflexivity|]. unfold estimateCompanySize. cbv zeta.
    destruct (5 <=? _); [|destruct (3 <=? _)];
      repeat first [apply list_elem_of_here | apply list_elem_of_further]. }
  assert (LeadScorer.is_lead_record
            (Obj (leadData now industry (enrichLead (observe i) candidate)))) as Hrecord.
  { split; [split; discriminate|]. intros k v Hk.
    repeat (apply elem_of_cons in Hk as [->|Hk];
            [cbn; intros [= <-]; try done; unfold or; by destruct (truthy _)|]).
    by apply elem_of_nil in Hk. }
  split; [done|]. split; [by apply calculateScore_returns|].
  assert (size <> "") as Hne.
  { intros ->. repeat (apply elem_of_cons in Hclass as [Hclass|Hclass]; [discriminate|]).
    by apply elem_of_nil in Hclass. }
  split.
  - cbn [leadData assoc String.eqb Ascii.eqb Bool.eqb]. rewrite Hsize.
    unfold or. cbn [truthy]. apply String.eqb_neq in Hne. by rewrite Hne.
  - rewrite Hsize. repeat (apply elem_of_cons in Hclass as [->|Hclass];
                           [repeat first [apply list_elem_of_here | apply list_elem_of_further]|]).
    by apply elem_of_nil in Hclass.
Qed.

End SavedLeads.

Lemma saved_lead_is_scorable_witness :
  let lead := LeadEnrichment.enrichLead LeadEnrichment.example_observation
                LeadEnrichment.example_candidate in
  LeadEnrichment.estimatedSize lead = Js.Str "Large" /\
  is_Some (LeadScorer.calculateScore (H := LeadScorer.example_runtime) 5
             (Js.Obj (LeadEnrichment.leadData 5 "plumbing" lead))).
Proof.
  cbv zeta. split; [reflexivity|].
  refine (proj1 (proj2 (saved_lead_is_scorable (H := LeadScorer.example_runtime)
                          (fun _ => LeadEnrichment.example_observation)
                          (Some [LeadEnrichment.example_candidate]) None None
                          5 "plumbing" _ _))).
  vm_compute. left.
Defined.

(* ===================================================================== *)
(** * From a hot score to a click *)
(* ===================================================================== *)

Section HotLeadPath.
Import Js Store EmailWebhooks ScoringProcessor FollowupProcessor.
Context `{Runtime}.



End HotLeadPath.


(* ===================================================================== *)
(** * The least score (scoring/lead-scorer.js) *)
(* ===================================================================== *)

Section LeastScore.
Import Js LeadScorer.
Context `{Runtime}.
Implicit Types (lead : Val) (s : Z).

Lemma scoreSEORanking_least lead s : scoreSEORanking lead = Some s -> 35 <= s.
Proof.
  unfold scoreSEORanking, block. intros Hs. crunch Hs; [lia|].
  match goal with
  | Hk : analyzeIndustryKeywords _ _ = Some _ |- _ =>
      destruct (analyzeIndustryKeywords_values _ _ _ Hk) as [-> | ->]
  end; split_tests; lia.
Qed.

Lemma scoreAdPresence_least lead s : scoreAdPresence lead = Some s -> 20 <= s.
Proof.
  unfold scoreAdPresence, block. intros Hs. crunch Hs.
  split_tests; lia.
Qed.

Lemma scoreReviews_least lead s : scoreReviews lead = Some s -> 15 <= s.
Proof.
  unfold scoreReviews. intros Hs. crunch Hs.
  split_tests; lia.
Qed.

Lemma scoreSocialPresence_least lead s : scoreSocialPresence lead = Some s -> 25 <= s.
Proof.
  unfold scoreSocialPresence, block. intros Hs. crunch Hs.
  match goal with
  | Hf : forEach_platform _ _ _ = Some _ |- _ =>
      apply forEach_platform_bounds in Hf as [Hrange _]
  end.
  cbn [length platforms] in Hrange.
  match goal with
  | |- context [if ?c then _ else _] => destruct c
  end; lia.
Qed.

Lemma scoreCompanySize_least lead s : scoreCompanySize lead = Some s -> 30 <= s.
Proof.
  unfold scoreCompanySize, block. intros Hs. crunch Hs.
  split_tests; lia.
Qed.

Lemma scoreMarketCompetitiveness_least lead s :
  scoreMarketCompetitiveness lead = Some s -> 60 <= s.
Proof.
  unfold scoreMarketCompetitiveness, isMetroArea. intros Hs. crunch Hs.
  split_tests; lia.
Qed.

Lemma computeScores_least lead scores :
  computeScores lead = Some scores ->
  Forall2 Z.le (scores_list least_scores) (scores_list scores).
Proof.
  unfold computeScores. intros Hs.
  destruct (scoreWebsiteQuality lead) as [s1|] eqn:H1; [|discriminate].
  destruct (scoreSEORanking lead) as [s2|] eqn:H2; [|discriminate].
  destruct (scoreAdPresence lead) as [s3|] eqn:H3; [|discriminate].
  destruct (scoreReviews lead) as [s4|] eqn:H4; [|discriminate].
  destruct (scoreSocialPresence lead) as [s5|] eqn:H5; [|discriminate].
  destruct (scoreCompanySize lead) as [s6|] eqn:H6; [|discriminate].
  destruct (scoreMarketCompetitiveness lead) as [s7|] eqn:H7; [|discriminate].
  injection Hs as <-. unfold scores_list, least_scores. cbn.
  apply scoreWebsiteQuality_on_grid, on_grid_range in H1.
  repeat constructor;
    eauto using scoreSEORanking_least, scoreAdPresence_least, scoreReviews_least,
      scoreSocialPresence_least, scoreCompanySize_least, scoreMarketCompetitiveness_least.
  lia.
Qed.

Lemma floor_sound (lo w : Z) (prev next : list spec_float) :
  floor_ok lo w prev next = true ->
  forall t s, t ∈ prev -> s ∈ grid -> lo <= s -> add_weighted t (s, w) ∈ next.
Proof.
  unfold floor_ok. intros Hok t s Ht Hs Hlo.
  rewrite forallb_forall in Hok.
  apply (covered_sound next (map (fun t => fadd t (fmul (fdiv (ofZ s) (ofZ 100)) (ofZ w))) prev)).
  - apply Hok. apply list_elem_of_In. unfold terms_from.
    apply (list_elem_of_fmap_2 (fun s => fmul (fdiv (ofZ s) (ofZ 100)) (ofZ w))).
    by apply list_elem_of_filter.
  - by apply (list_elem_of_fmap_2 (fun t => fadd t (fmul (fdiv (ofZ s) (ofZ 100)) (ofZ w)))).
Qed.

Lemma floors_ok :
  floor_ok 0 25 totals_0 floor_1 = true /\
  floor_ok 35 20 floor_1 floor_2 = true /\
  floor_ok 20 15 floor_2 floor_3 = true /\
  floor_ok 15 15 floor_3 floor_4 = true /\
  floor_ok 25 10 floor_4 floor_5 = true /\
  floor_ok 30 10 floor_5 floor_6 = true /\
  floor_ok 60 5 floor_6 floor_7 = true.
Proof. repeat split; vm_compute; reflexivity. Qed.

(** From component scores that are at least the least ones, the
    accumulator of the [reduce] ends in [floor_7]. *)
Lemma weightedTotal_floor (scores : ComponentScores) :
  Forall (fun s => on_grid s = true) (scores_list scores) ->
  Forall2 Z.le (scores_list least_scores) (scores_list scores) ->
  weightedTotal scores ∈ floor_7.
Proof.
  destruct scores as [s1 s2 s3 s4 s5 s6 s7]. intros Hall Hleast.
  unfold scores_list, least_scores in Hall, Hleast.
  cbn [websiteQuality seoRanking adPresence reviewScore socialPresence companySize
       marketCompetitiveness] in Hall, Hleast.
  repeat match goal with
         | Hf : Forall _ (_ :: _) |- _ =>
             apply Forall_cons in Hf as [?%on_grid_elem Hf]
         | Hf : Forall2 _ (_ :: _) (_ :: _) |- _ =>
             apply Forall2_cons in Hf as [? Hf]
         end.
  destruct floors_ok as (K1 & K2 & K3 & K4 & K5 & K6 & K7).
  unfold weightedTotal, scores_list, weights_list, weights. cbn [zip zip_with fold_left
    websiteQuality seoRanking adPresence reviewScore socialPresence companySize
    marketCompetitiveness w_websiteQuality w_seoRanking w_adPresence w_reviewScore
    w_socialPresence w_companySize w_marketCompetitiveness].
  apply (floor_sound _ _ _ _ K7); [|done|done].
  apply (floor_sound _ _ _ _ K6); [|done|done].
  apply (floor_sound _ _ _ _ K5); [|done|done].
  apply (floor_sound _ _ _ _ K4); [|done|done].
  apply (floor_sound _ _ _ _ K3); [|done|done].
  apply (floor_sound _ _ _ _ K2); [|done|done].
  apply (floor_sound _ _ _ _ K1); [|done|done].
  by left.
Qed.

Lemma floor_7_round : forallb (fun t => 21 <=? Math_round t) floor_7 = true.
Proof. vm_compute. reflexivity. Qed.

(** X25.  No lead scores below 21.  When [calculateScore] returns, the
    SEO score is at least 35, the ad score 20, the review score 15, the
    social score 25, the size score 30 and the market score 60 (the
    website score can be 0), and the rounded weighted total of such
    scores, computed in doubles as the [reduce] does, is at least 21: the
    "Low Priority" tier starts there, not at 0. *)
Theorem calculateScore_least now lead scoreData :
  calculateScore now lead = Some scoreData ->
  21 <= totalScore scoreData /\
  Forall2 Z.le (scores_list least_scores) (scores_list (componentScores scoreData)).
Proof.
  unfold calculateScore. intros Hrun.
  destruct (get lead "company_name") as [name|]; cbn [mbind option_bind] in Hrun;
    [|discriminate].
  destruct (computeScores lead) as [scores|] eqn:Hscores; cbn [mbind option_bind] in Hrun;
    [|discriminate].
  injection Hrun as <-. cbn [totalScore componentScores].
  pose proof (computeScores_least _ _ Hscores) as Hleast.
  split; [|exact Hleast].
  pose proof floor_7_round as Hround. rewrite forallb_forall in Hround.
  apply Z.leb_le, Hround, list_elem_of_In, weightedTotal_floor;
    [by apply (computeScores_on_grid lead)|exact Hleast].
Qed.

End LeastScore.

(** The bound is met: [best_lead] scores 21. *)
Lemma calculateScore_least_witness :
  exists scoreData,
    LeadScorer.calculateScore (H := LeadScorer.example_runtime) 5 LeadScorer.best_lead
      = Some scoreData /\
    LeadScorer.totalScore scoreData = 21 /\
    21 <= LeadScorer.totalScore scoreData.
Proof.
  eexists. split; [vm_compute; reflexivity|].
  split; [reflexivity|].
  apply (calculateScore_least (H := LeadScorer.example_runtime) 5 LeadScorer.best_lead).
  vm_compute. reflexivity.
Defined.
